(** * cross-release-cli: the release driver of [cli.ts]

    A shallow embedding of [packages/cross-release-cli/src/cli.ts]: the
    [App] class with its fields, the message formatter, the confirmation
    gates, the task queue and its fail-fast loop.

    JavaScript strings are modelled by [string], one character for one
    code unit; the characters the driver looks for ([%], [s], [$]) are
    ASCII.  The [async] methods are modelled by a state monad over the
    fields of [App] together with the trace of the collaborator calls the
    run performs: the driver has a single thread of control, and the one
    place where calls overlap, the fan-out of the version-update task, is
    modelled by the order in which its writes settle.  A call of
    [process.exit] and a thrown [Error] are the two abnormal outcomes of a
    computation.  Console output ([intro], [outro], [log], [message],
    [debug]) is left out. *)

From Stdlib Require Import String Ascii List Bool Arith Lia Permutation.
Import ListNotations.
Open Scope string_scope.
Open Scope list_scope.

(** ** Strings: [includes] and [replaceAll] *)

Module JSString.

(** [s.startsWith(p)] *)
Fixpoint startsWith (p s : string) : bool :=
  match p with
  | EmptyString => true
  | String a p' =>
      match s with
      | EmptyString => false
      | String b s' => Ascii.eqb a b && startsWith p' s'
      end
  end.

(** [s.includes(search)]: [search] occurs at some position of [s]. *)
Fixpoint includes (search s : string) : bool :=
  startsWith search s ||
  match s with
  | EmptyString => false
  | String _ s' => includes search s'
  end.

(** [s.substring(n)] *)
Fixpoint substringFrom (n : nat) (s : string) : string :=
  match n, s with
  | O, _ => s
  | S n', String _ s' => substringFrom n' s'
  | S _, EmptyString => EmptyString
  end.

(** The abstract operation GetSubstitution of ECMAScript, for a match of a
    string pattern (no capture groups, no named groups).  [before] and
    [after] are the parts of the subject before and after the match.  The
    references [$n] and [$<] have no group to refer to, and are copied as
    they are, character by character. *)
Fixpoint GetSubstitution (matched before after template : string) : string :=
  match template with
  | EmptyString => EmptyString
  | String c t =>
      if Ascii.eqb c "$" then
        match t with
        | EmptyString => String c EmptyString
        | String d t' =>
            if Ascii.eqb d "$" then
              String "$" (GetSubstitution matched before after t')
            else if Ascii.eqb d "`" then
              before ++ GetSubstitution matched before after t'
            else if Ascii.eqb d "&" then
              matched ++ GetSubstitution matched before after t'
            else if Ascii.eqb d "'" then
              after ++ GetSubstitution matched before after t'
            else String c (GetSubstitution matched before after t)
        end
      else String c (GetSubstitution matched before after t)
  end.

(** The scan of [replaceAll] for a non-empty search string: [skip] counts
    the characters of the current match that are still to be passed over
    (the next search starts at [position + searchLength]); [before] is the
    part of the subject already scanned. *)
Fixpoint replaceAll_scan (search replaceValue : string) (skip : nat)
    (before s : string) : string :=
  match s with
  | EmptyString => EmptyString
  | String c s' =>
      match skip with
      | S k =>
          replaceAll_scan search replaceValue k (before ++ String c EmptyString) s'
      | O =>
          if startsWith search s then
            GetSubstitution search before
              (substringFrom (String.length search) s) replaceValue
            ++ replaceAll_scan search replaceValue (String.length search - 1)
                 (before ++ String c EmptyString) s'
          else
            String c
              (replaceAll_scan search replaceValue 0
                 (before ++ String c EmptyString) s')
      end
  end.

(** For the empty search string every position matches, the end of the
    subject included. *)
Fixpoint replaceAll_empty (replaceValue before s : string) : string :=
  GetSubstitution EmptyString before s replaceValue ++
  match s with
  | EmptyString => EmptyString
  | String c s' =>
      String c (replaceAll_empty replaceValue (before ++ String c EmptyString) s')
  end.

(** [s.replaceAll(search, replaceValue)] with two strings. *)
Definition replaceAll (search replaceValue s : string) : string :=
  match search with
  | EmptyString => replaceAll_empty replaceValue EmptyString s
  | String _ _ => replaceAll_scan search replaceValue 0 EmptyString s
  end.

End JSString.

Import JSString.

(** ** [App.formatMessageString] *)

Definition formatMessageString (template nextVersion : string) : string :=
  if includes "%s" template then
    replaceAll "%s" nextVersion template
  else
    template ++ nextVersion.

(** *** What replacing every placeholder means

    [pieces t] cuts [t] at every occurrence of the placeholder, from left
    to right; [joinWith v ps] puts [v] between consecutive pieces. *)

Fixpoint pieces (t : string) : list string :=
  match t with
  | EmptyString => [EmptyString]
  | String c t' =>
      match pieces t' with
      | [] => [String c EmptyString]
      | p :: ps =>
          if Ascii.eqb c "%" && startsWith "s" t' then
            EmptyString :: substringFrom 1 p :: ps
          else String c p :: ps
      end
  end.

Fixpoint joinWith (v : string) (ps : list string) : string :=
  match ps with
  | [] => EmptyString
  | [p] => p
  | p :: ps' => p ++ v ++ joinWith v ps'
  end.

(** The conditions on a version under which it cannot form a placeholder
    with the text around it. *)
Definition noDollar (v : string) : bool := negb (includes "$" v).

Definition headIs (c : ascii) (s : string) : bool :=
  match s with
  | EmptyString => false
  | String a _ => Ascii.eqb a c
  end.

Fixpoint lastIs (c : ascii) (s : string) : bool :=
  match s with
  | EmptyString => false
  | String a EmptyString => Ascii.eqb a c
  | String _ s' => lastIs c s'
  end.


(** ** The data of a release run *)

(** [Status] of [./types]. *)
Inductive Status : Type := pending | running | failed | finished.

Definition Status_eqb (a b : Status) : bool :=
  match a, b with
  | pending, pending | running, running
  | failed, failed | finished, finished => true
  | _, _ => false
  end.

(** The member of [ExitCode] that [cli.ts] refers to. *)
Inductive ExitCode : Type := Canceled.

(** A project file as the driver sees it: its path and its category. *)
Record ProjectFile : Type := mkProjectFile {
  path : string;
  category : string
}.

(** The value of one of the options [commit], [tag] and [push]: [None] is
    JavaScript's [undefined] (the option was not given), [Some b] the
    boolean [b]. *)
Definition Flag : Type := option bool.

(** JavaScript truthiness of a flag, as tested by [!this.options[name]] and
    [if (this.options[name])]. *)
Definition truthy (f : Flag) : bool :=
  match f with
  | Some true => true
  | _ => false
  end.

(** The fields of [ReleaseOptions] that [cli.ts] reads. *)
Record ReleaseOptions : Type := mkOptions {
  dir : string;
  excludes : list string;
  recursive : bool;
  main : string;
  version : option string;
  dry : bool;
  yes : bool;
  commit : Flag;
  tag : Flag;
  push : Flag
}.

(** [ExtractBooleanKeys<ReleaseOptions>], as far as the gates use it. *)
Inductive StepName : Type := stepCommit | stepTag | stepPush.

Definition getFlag (n : StepName) (o : ReleaseOptions) : Flag :=
  match n with
  | stepCommit => commit o
  | stepTag => tag o
  | stepPush => push o
  end.

(** [options[name] = v] *)
Definition setFlag (n : StepName) (v : Flag) (o : ReleaseOptions)
  : ReleaseOptions :=
  match n with
  | stepCommit =>
      mkOptions (dir o) (excludes o) (recursive o) (main o) (version o)
        (dry o) (yes o) v (tag o) (push o)
  | stepTag =>
      mkOptions (dir o) (excludes o) (recursive o) (main o) (version o)
        (dry o) (yes o) (commit o) v (push o)
  | stepPush =>
      mkOptions (dir o) (excludes o) (recursive o) (main o) (version o)
        (dry o) (yes o) (commit o) (tag o) v
  end.

Definition stepKey (n : StepName) : string :=
  match n with
  | stepCommit => "commit"
  | stepTag => "tag"
  | stepPush => "push"
  end.

(** What [resolveAltOptions] of [./util] yields for a step. *)
Record AltOptions : Type := mkAlt {
  stageAll : bool;
  template : string;
  verify : bool;
  followTags : bool
}.

(** The argument objects of the git collaborators. *)
Record CommitArgs : Type := mkCommitArgs {
  commit_dry : bool;
  commit_message : string;
  commit_modifiedFiles : list string;
  commit_stageAll : bool;
  commit_verify : bool
}.

Record TagArgs : Type := mkTagArgs {
  tag_dry : bool;
  tag_message : string;
  tag_tagName : string
}.

Record PushArgs : Type := mkPushArgs {
  push_dry : bool;
  push_followTags : bool
}.

(** The [exec] closures of the four tasks, with the variables each one
    captures.  What a closure reads from [this] when it runs
    ([this.modifiedFiles], [this.options]) is not captured. *)
Inductive Exec : Type :=
| execUpgrade (nextVersion : string) (dir : string)
    (projectFiles : list ProjectFile)
| execCommit (dry : bool) (message : string) (stageAll verify : bool)
| execTag (dry : bool) (message tagName : string)
| execPush (dry : bool).

(** [Task] of [./types]. *)
Record Task : Type := mkTask {
  exec : Exec;
  name : string
}.

(** The answer of an interactive prompt: a value, or the cancel symbol. *)
Inductive Answer (A : Type) : Type :=
| answered (a : A)
| cancelSymbol.
Arguments answered {A} a.
Arguments cancelSymbol {A}.

(** The observable steps of a run, in the order they happen: the calls of
    the collaborators with their arguments, the start of a task's [exec],
    and the assignments to [taskStatus]. *)
Inductive Event : Type :=
| EvFindProjectFiles (d : string) (ex : list string) (rec : option bool)
| EvGetProjectVersion (f : ProjectFile)
| EvChooseVersion (current : string)
| EvConfirm (message : string)
| EvCancel
| EvExec (taskName : string)
| EvUpgrade (v : string) (f : ProjectFile)
| EvGitCommit (a : CommitArgs)
| EvGitTag (a : TagArgs)
| EvGitPush (a : PushArgs)
| EvStatus (s : Status).

(** The private fields of [App], and with them the two parts of the
    process the run acts on: the trace of its steps and the environment
    variable [DRY]. *)
Record App : Type := mkApp {
  currentVersion : string;
  modifiedFiles : list string;
  nextVersion : string;
  options : ReleaseOptions;
  taskQueue : list Task;
  taskStatus : Status;
  trace : list Event;
  envDRY : bool
}.

(** [new App(opts)] in a fresh process. *)
Definition newApp (opts : ReleaseOptions) : App :=
  mkApp "" [] "" opts [] pending [] false.

Definition set_currentVersion (v : string) (a : App) : App :=
  mkApp v (modifiedFiles a) (nextVersion a) (options a) (taskQueue a)
    (taskStatus a) (trace a) (envDRY a).

Definition set_modifiedFiles (l : list string) (a : App) : App :=
  mkApp (currentVersion a) l (nextVersion a) (options a) (taskQueue a)
    (taskStatus a) (trace a) (envDRY a).

Definition set_nextVersion (v : string) (a : App) : App :=
  mkApp (currentVersion a) (modifiedFiles a) v (options a) (taskQueue a)
    (taskStatus a) (trace a) (envDRY a).

Definition set_options (o : ReleaseOptions) (a : App) : App :=
  mkApp (currentVersion a) (modifiedFiles a) (nextVersion a) o (taskQueue a)
    (taskStatus a) (trace a) (envDRY a).

Definition set_taskQueue (q : list Task) (a : App) : App :=
  mkApp (currentVersion a) (modifiedFiles a) (nextVersion a) (options a) q
    (taskStatus a) (trace a) (envDRY a).

Definition set_trace (t : list Event) (a : App) : App :=
  mkApp (currentVersion a) (modifiedFiles a) (nextVersion a) (options a)
    (taskQueue a) (taskStatus a) t (envDRY a).

Definition set_envDRY (b : bool) (a : App) : App :=
  mkApp (currentVersion a) (modifiedFiles a) (nextVersion a) (options a)
    (taskQueue a) (taskStatus a) (trace a) b.

(** [this.taskStatus = s]; the assignment is a step of the trace. *)
Definition set_taskStatus (s : Status) (a : App) : App :=
  mkApp (currentVersion a) (modifiedFiles a) (nextVersion a) (options a)
    (taskQueue a) s (trace a ++ [EvStatus s]) (envDRY a).

(** ** The monad of the driver *)

Inductive Outcome (A : Type) : Type :=
| Ret (a : A)
| Exit (code : ExitCode)
| Throw (err : string).
Arguments Ret {A} a.
Arguments Exit {A} code.
Arguments Throw {A} err.

Definition M (A : Type) : Type := App -> Outcome A * App.

Definition ret {A} (a : A) : M A := fun st => (Ret a, st).

Definition bind {A B} (m : M A) (k : A -> M B) : M B :=
  fun st =>
    match m st with
    | (Ret a, st') => k a st'
    | (Exit c, st') => (Exit c, st')
    | (Throw e, st') => (Throw e, st')
    end.

Notation "x <- m ;; k" := (bind m (fun x => k))
  (at level 61, m at next level, right associativity).
Notation "m ;; k" := (bind m (fun _ => k))
  (at level 61, right associativity).

Definition get : M App := fun st => (Ret st, st).
Definition modify (f : App -> App) : M unit := fun st => (Ret tt, f st).
Definition emit (e : Event) : M unit :=
  modify (fun st => set_trace (trace st ++ [e]) st).
Definition throw {A} (e : string) : M A := fun st => (Throw e, st).
Definition processExit {A} (c : ExitCode) : M A := fun st => (Exit c, st).

(** ** The collaborators

    Everything [cli.ts] imports and calls: discovery, reading and writing
    of versions (cross-bump), the prompts, the git commands and
    [resolveAltOptions].  [findProjectFiles] takes its third argument as an
    option: [None] when the call passes two arguments only.  [settleOrder]
    is the order in which the writes launched together by [Promise.all]
    settle.  A write either succeeds ([true]) or throws ([false]); the other
    collaborators are taken to return. *)
Record Collaborators : Type := mkCollaborators {
  findProjectFiles : string -> list string -> option bool -> list ProjectFile;
  getProjectVersion : ProjectFile -> option string;
  isVersionValid : string -> bool;
  chooseVersion : string -> Answer string;
  confirm : string -> Answer bool;
  upgradeProjectVersion : string -> ProjectFile -> bool;
  settleOrder : list ProjectFile -> list ProjectFile;
  gitCommit : CommitArgs -> bool;
  gitTag : TagArgs -> bool;
  gitPush : PushArgs -> bool;
  resolveAltOptions : ReleaseOptions -> StepName -> AltOptions
}.

(** Modelled from the spec: the validity check of cross-bump applied to the
    optional [version] of the options; its declaration is not part of
    [cli.ts].  A version that was not supplied is not valid; a supplied one
    is valid when [isVersionValid] accepts the string. *)
Definition validVersion (E : Collaborators) (v : option string)
  : option string :=
  match v with
  | Some s => if isVersionValid E s then Some s else None
  | None => None
  end.

Section Driver.

Variable E : Collaborators.

(** [handleUserCancel] *)
Definition handleUserCancel {A} (result : Answer A) : M A :=
  match result with
  | cancelSymbol => emit EvCancel ;; processExit Canceled
  | answered a => ret a
  end.

(** [#addTask] *)
Definition addTask (task : Task) : M bool :=
  st <- get ;;
  let expect := List.length (taskQueue st) + 1 in
  modify (fun st => set_taskQueue (taskQueue st ++ [task]) st) ;;
  st' <- get ;;
  ret (Nat.eqb (List.length (taskQueue st')) expect).

(** [#check] *)
Definition check (status : bool) : M unit :=
  if status then ret tt else modify (set_taskStatus failed).

(** [#checkDryRun] *)
Definition checkDryRun : M unit :=
  st <- get ;;
  if dry (options st) then modify (set_envDRY true) else ret tt.

(** [#start] *)
Definition start : M unit :=
  checkDryRun ;;
  modify (set_taskStatus running).

(** [#done] *)
Definition done : M unit :=
  modify (set_taskStatus finished).

(** [#getNextVersion] *)
Definition getNextVersion : M unit :=
  st <- get ;;
  let o := options st in
  emit (EvFindProjectFiles (dir o) (excludes o) None) ;;
  let projectFiles := findProjectFiles E (dir o) (excludes o) None in
  if Nat.eqb (List.length projectFiles) 0 then
    throw "can't found any project file in the project root"
  else
    match find (fun file => String.eqb (category file) (main o)) projectFiles with
    | None =>
        throw ("can't found " ++ main o ++ " project file in the project root")%string
    | Some mainProjectFile =>
        emit (EvGetProjectVersion mainProjectFile) ;;
        let projectVersion := getProjectVersion E mainProjectFile in
        modify (set_currentVersion
                  (match projectVersion with Some v => v | None => "" end)) ;;
        match validVersion E (version o) with
        | Some v => modify (set_nextVersion v)
        | None =>
            st1 <- get ;;
            emit (EvChooseVersion (currentVersion st1)) ;;
            v <- handleUserCancel (chooseVersion E (currentVersion st1)) ;;
            modify (set_nextVersion v)
        end
    end.

(** [#getProjects] *)
Definition getProjects : M unit :=
  st <- get ;;
  let o := options st in
  emit (EvFindProjectFiles (dir o) (excludes o) (Some (recursive o))) ;;
  let projectFiles :=
    findProjectFiles E (dir o) (excludes o) (Some (recursive o)) in
  addTask (mkTask (execUpgrade (nextVersion st) (dir o) projectFiles)
             "upgradeVersion") ;;
  ret tt.

(** The helper [confirmAndSet] of [#confirmReleaseOptions]; [yes] is the
    constant destructured from the options before the first gate. *)
Definition confirmAndSet (yes : bool) (name : StepName) (message : string)
    (exec : Exec) : M unit :=
  (if yes then
     modify (fun st => set_options (setFlag name (Some true) (options st)) st)
   else
     st <- get ;;
     if negb (truthy (getFlag name (options st))) then
       emit (EvConfirm message) ;;
       confirmation <- handleUserCancel (confirm E message) ;;
       modify (fun st =>
                 set_options (setFlag name (Some confirmation) (options st)) st)
     else ret tt) ;;
  st <- get ;;
  if truthy (getFlag name (options st)) then
    addTask (mkTask exec (stepKey name)) ;; ret tt
  else ret tt.

(** [#confirmReleaseOptions] *)
Definition confirmReleaseOptions : M unit :=
  st <- get ;;
  let dry := dry (options st) in
  let yes := yes (options st) in
  let alt := resolveAltOptions E (options st) stepCommit in
  let message := formatMessageString (template alt) (nextVersion st) in
  confirmAndSet yes stepCommit "should commit?"
    (execCommit dry message (stageAll alt) (verify alt)) ;;
  st1 <- get ;;
  let tagName := ("v" ++ nextVersion st1)%string in
  confirmAndSet yes stepTag "should create tag?"
    (execTag dry message tagName) ;;
  confirmAndSet yes stepPush "should push to remote?" (execPush dry).

(** The fan-out of the version-update task: every write is started, in
    the order of the list, before any of them settles. *)
Fixpoint launchAll (v : string) (files : list ProjectFile) : M unit :=
  match files with
  | [] => ret tt
  | f :: fs => emit (EvUpgrade v f) ;; launchAll v fs
  end.

(** What follows the [await] of one write: the [try] branch when the write
    succeeded, the [catch] branch when it failed. *)
Definition settle (v : string) (f : ProjectFile) : M unit :=
  if upgradeProjectVersion E v f then
    modify (fun st => set_modifiedFiles (modifiedFiles st ++ [path f]) st)
  else
    modify (set_taskStatus failed).

Fixpoint settleAll (v : string) (files : list ProjectFile) : M unit :=
  match files with
  | [] => ret tt
  | f :: fs => settle v f ;; settleAll v fs
  end.

(** [task.exec()] *)
Definition runExec (e : Exec) : M unit :=
  match e with
  | execUpgrade v _ projectFiles =>
      launchAll v projectFiles ;;
      settleAll v (settleOrder E projectFiles)
  | execCommit dry message stageAll verify =>
      st <- get ;;
      let a := mkCommitArgs dry message (modifiedFiles st) stageAll verify in
      emit (EvGitCommit a) ;;
      check (gitCommit E a)
  | execTag dry message tagName =>
      let a := mkTagArgs dry message tagName in
      emit (EvGitTag a) ;;
      check (gitTag E a)
  | execPush dry =>
      st <- get ;;
      let a :=
        mkPushArgs dry (followTags (resolveAltOptions E (options st) stepPush)) in
      emit (EvGitPush a) ;;
      check (gitPush E a)
  end.

(** The loop of [run] over the queue. *)
Fixpoint runTasks (queue : list Task) : M unit :=
  match queue with
  | [] => ret tt
  | task :: rest =>
      st <- get ;;
      if Status_eqb (taskStatus st) failed then
        ret tt
      else
        emit (EvExec (name task)) ;;
        runExec (exec task) ;;
        runTasks rest
  end.

(** [run] *)
Definition run : M unit :=
  start ;;
  getNextVersion ;;
  getProjects ;;
  confirmReleaseOptions ;;
  st <- get ;;
  runTasks (taskQueue st) ;;
  done.

(** The part of [run] before the loop, and the part up to [#done]. *)
Definition prepare : M unit :=
  start ;;
  getNextVersion ;;
  getProjects ;;
  confirmReleaseOptions.

Definition runToLoopEnd : M unit :=
  prepare ;;
  st <- get ;;
  runTasks (taskQueue st).

End Driver.

(** ** Sample collaborators and options, for evaluation *)

Module Sample.

Definition pkg : ProjectFile := mkProjectFile "package.json" "javascript".
Definition cargo : ProjectFile := mkProjectFile "Cargo.toml" "rust".
Definition pom : ProjectFile := mkProjectFile "sub/pom.xml" "java".

(** Discovery finds [pom] only when it is recursive. *)
Definition discover (d : string) (ex : list string) (rec : option bool)
  : list ProjectFile :=
  match rec with
  | Some true => [pkg; cargo; pom]
  | _ => [pkg; cargo]
  end.

Definition alt (o : ReleaseOptions) (n : StepName) : AltOptions :=
  mkAlt false "chore: release v%s" true true.

(** Every write but the one of [bad] succeeds; the operator answers the
    prompts with [confirmAnswer]; the git commands succeed. *)
Definition world (bad : string) (confirmAnswer : string -> Answer bool)
  : Collaborators :=
  mkCollaborators
    discover
    (fun _ => Some "1.0.0")
    (fun v => String.eqb v "2.1.0")
    (fun _ => answered "1.0.1-custom")
    confirmAnswer
    (fun _ f => negb (String.eqb (path f) bad))
    (fun l => rev l)
    (fun _ => true) (fun _ => true) (fun _ => true)
    alt.

Definition opts (v : option string) (y : bool) (c t p : Flag)
  : ReleaseOptions :=
  mkOptions "." [] true "javascript" v false y c t p.

(** The same options with the main project file of category [java], which
    only the recursive discovery finds. *)
Definition optsJava : ReleaseOptions :=
  mkOptions "." [] true "java" (Some "2.1.0") false true None None None.

(** The write of [Cargo.toml] fails and every prompt is confirmed. *)
Definition cargoFails : Collaborators :=
  world "Cargo.toml" (fun _ => answered true).

(** Every write succeeds and every prompt is cancelled. *)
Definition cancels : Collaborators :=
  world "" (fun _ => cancelSymbol).

(** Everything succeeds and every prompt is confirmed. *)
Definition allFine : Collaborators :=
  world "" (fun _ => answered true).

(** Batch-yes with a valid explicit version. *)
Definition batchYes : ReleaseOptions :=
  opts (Some "2.1.0") true None None None.

(** No explicit version, and [commit] explicitly set to false. *)
Definition commitOff : ReleaseOptions :=
  opts None false (Some false) None None.

(** No explicit version, no step option. *)
Definition interactive : ReleaseOptions :=
  opts None false None None None.

End Sample.


(** ** What is observed of a run

    The definitions the properties below are stated with. *)

(** [c] followed by [s] starts with the placeholder. *)
Definition placeholderAt (c : ascii) (s : string) : bool :=
  Ascii.eqb c "%" && headIs "s" s.

(** The values assigned to [taskStatus], in order. *)
Definition statusWrites (tr : list Event) : list Status :=
  flat_map (fun e => match e with EvStatus s => [s] | _ => [] end) tr.

(** The names of the tasks whose [exec] was called, in order. *)
Definition execNames (tr : list Event) : list string :=
  flat_map (fun e => match e with EvExec n => [n] | _ => [] end) tr.

(** The steps a task's [exec] can take: the calls it makes carry the
    variables the closure captured, and the only value it assigns to
    [taskStatus] is [failed]. *)
Definition producedBy (e : Exec) (ev : Event) : Prop :=
  match ev with
  | EvStatus s => s = failed
  | EvUpgrade v f =>
      match e with
      | execUpgrade v' _ files => v = v' /\ In f files
      | _ => False
      end
  | EvGitCommit a =>
      match e with
      | execCommit d m sa vf =>
          commit_dry a = d /\ commit_message a = m /\
          commit_stageAll a = sa /\ commit_verify a = vf
      | _ => False
      end
  | EvGitTag a =>
      match e with
      | execTag d m t => a = mkTagArgs d m t
      | _ => False
      end
  | EvGitPush a =>
      match e with
      | execPush d => push_dry a = d
      | _ => False
      end
  | _ => False
  end.

(** The steps of the loop over a queue. *)
Definition loopStep (queue : list Task) (ev : Event) : Prop :=
  exists t, In t queue /\ (ev = EvExec (name t) \/ producedBy (exec t) ev).

(** What a task, or the loop, leaves as it is, and how the rest moves. *)
Record Effect (P : Event -> Prop) (st st' : App) : Prop := mkEffect {
  eff_currentVersion : currentVersion st' = currentVersion st;
  eff_nextVersion : nextVersion st' = nextVersion st;
  eff_options : options st' = options st;
  eff_taskQueue : taskQueue st' = taskQueue st;
  eff_envDRY : envDRY st' = envDRY st;
  eff_modifiedFiles :
    exists more, modifiedFiles st' = modifiedFiles st ++ more;
  eff_taskStatus : taskStatus st' = taskStatus st \/ taskStatus st' = failed;
  eff_trace : exists evs, trace st' = trace st ++ evs /\ Forall P evs
}.

(** The steps before the loop: no task is started and nothing is written. *)
Definition setupStep (ev : Event) : Prop :=
  match ev with
  | EvStatus s => s = running
  | EvFindProjectFiles _ _ _ | EvGetProjectVersion _ | EvChooseVersion _
  | EvConfirm _ | EvCancel => True
  | _ => False
  end.

(** The discovery calls of a trace, with their arguments. *)
Definition discoveries (tr : list Event)
  : list (string * list string * option bool) :=
  flat_map (fun e => match e with
                     | EvFindProjectFiles d ex r => [(d, ex, r)]
                     | _ => []
                     end) tr.

(** What a run whose version update failed is allowed to do: no git
    command, and no task started other than the version update. *)
Definition onlyVersionUpdate (ev : Event) : Prop :=
  match ev with
  | EvGitCommit _ | EvGitTag _ | EvGitPush _ => False
  | EvExec n => n = "upgradeVersion"
  | _ => True
  end.

Section Observations.

Variable E : Collaborators.

(** The files of a list whose write succeeds. *)
Definition written (v : string) (files : list ProjectFile)
  : list ProjectFile :=
  filter (upgradeProjectVersion E v) files.

(** The queue the gates leave behind, read off the options after the
    gates: the version-update task, then the tasks of the steps whose
    option is true. *)
Definition expectedQueue (opts : ReleaseOptions) (st : App) : list Task :=
  let alt := resolveAltOptions E opts stepCommit in
  let message := formatMessageString (template alt) (nextVersion st) in
  mkTask (execUpgrade (nextVersion st) (dir opts)
            (findProjectFiles E (dir opts) (excludes opts)
               (Some (recursive opts))))
    "upgradeVersion"
  :: (if truthy (commit (options st))
      then [mkTask (execCommit (dry opts) message (stageAll alt) (verify alt))
              "commit"]
      else [])
  ++ (if truthy (tag (options st))
      then [mkTask (execTag (dry opts) message ("v" ++ nextVersion st)%string)
              "tag"]
      else [])
  ++ (if truthy (push (options st))
      then [mkTask (execPush (dry opts)) "push"]
      else []).

(** The arguments every task of a run works with: the version of the
    update, the message of the commit and of the tag, the name of the
    tag. *)
Definition carries (opts : ReleaseOptions) (v : string) (ev : Event) : Prop :=
  let message :=
    formatMessageString (template (resolveAltOptions E opts stepCommit)) v in
  match ev with
  | EvUpgrade v' f =>
      v' = v /\
      In f (findProjectFiles E (dir opts) (excludes opts)
              (Some (recursive opts)))
  | EvGitCommit c => commit_message c = message
  | EvGitTag a => tag_message a = message /\ tag_tagName a = ("v" ++ v)%string
  | _ => True
  end.

End Observations.

(** ** Further observations *)

(** The file updates of a trace, in order: the version and the file of
    each call of [upgradeProjectVersion]. *)
Definition upgrades (tr : list Event) : list (string * ProjectFile) :=
  flat_map (fun e => match e with EvUpgrade v f => [(v, f)] | _ => [] end) tr.

(** The git commands of a trace, in order, by the step they belong to. *)
Definition gitCalls (tr : list Event) : list StepName :=
  flat_map (fun e => match e with
                     | EvGitCommit _ => [stepCommit]
                     | EvGitTag _ => [stepTag]
                     | EvGitPush _ => [stepPush]
                     | _ => []
                     end) tr.

(** The steps whose option is true. *)
Definition enabledSteps (o : ReleaseOptions) : list StepName :=
  filter (fun n => truthy (getFlag n o)) [stepCommit; stepTag; stepPush].

(** The [dry] argument of a git command is [d]. *)
Definition dryIs (d : bool) (ev : Event) : Prop :=
  match ev with
  | EvGitCommit a => commit_dry a = d
  | EvGitTag a => tag_dry a = d
  | EvGitPush a => push_dry a = d
  | _ => True
  end.

(** The steps of the tasks: everything but discovery, the reading of the
    current version and the prompts. *)
Definition workStep (ev : Event) : Prop :=
  match ev with
  | EvFindProjectFiles _ _ _ | EvGetProjectVersion _ | EvChooseVersion _
  | EvConfirm _ | EvCancel => False
  | _ => True
  end.

(** The tasks of the optional steps, for the three decisions of the
    gates. *)
Definition gatedQueue (fc ft fp : bool) (ec et ep : Exec) : list Task :=
  (if fc then [mkTask ec "commit"] else [])
  ++ (if ft then [mkTask et "tag"] else [])
  ++ (if fp then [mkTask ep "push"] else []).

(** The steps among commit, tag and push that were decided for. *)
Definition stepsOf (fc ft fp : bool) : list StepName :=
  (if fc then [stepCommit] else [])
  ++ (if ft then [stepTag] else [])
  ++ (if fp then [stepPush] else []).

(** What the optional tasks do when they run after a version update
    without failure, for the decisions [fc], [ft], [fp] of the gates and
    the arguments [c], [t], [p] their git commands are to get. *)
Definition GitPhase (E : Collaborators) (fc ft fp : bool)
    (c : CommitArgs) (t : TagArgs) (p : PushArgs) (evs : list Event) : Prop :=
  (forall a, In (EvGitCommit a) evs ->
     a = c /\ fc = true /\
     (gitCommit E a = false ->
      (forall x, ~ In (EvGitTag x) evs) /\ (forall x, ~ In (EvGitPush x) evs)))
  /\
  (forall a, In (EvGitTag a) evs ->
     a = t /\ ft = true /\
     (gitTag E a = false -> forall x, ~ In (EvGitPush x) evs))
  /\
  (forall a, In (EvGitPush a) evs -> a = p /\ fp = true)
  /\
  (~ In (EvStatus failed) evs ->
   execNames evs = map stepKey (stepsOf fc ft fp))
  /\
  (exists k, gitCalls evs = firstn k (stepsOf fc ft fp))
  /\
  upgrades evs = [].

(** [projectVersion ?? ""] for the version read from a file. *)
Definition currentOf (E : Collaborators) (f : ProjectFile) : string :=
  match getProjectVersion E f with Some c => c | None => "" end.

(** ** Further scenarios, for evaluation *)

Module Scenario.

Import Sample.

(** The outcome and the final state of the run of fresh options. *)
Definition outcome (E : Collaborators) (o : ReleaseOptions) : Outcome unit :=
  fst (run E (newApp o)).

Definition final (E : Collaborators) (o : ReleaseOptions) : App :=
  snd (run E (newApp o)).

(** Discovery finds nothing. *)
Definition noFiles : Collaborators :=
  mkCollaborators
    (fun _ _ _ => [])
    (fun _ => Some "1.0.0")
    (fun v => String.eqb v "2.1.0")
    (fun _ => answered "1.0.1-custom")
    (fun _ => answered true)
    (fun _ _ => true)
    (fun l => l)
    (fun _ => true) (fun _ => true) (fun _ => true)
    alt.

(** The main file has no version yet and the operator cancels the version
    prompt. *)
Definition versionCancelled : Collaborators :=
  mkCollaborators
    discover
    (fun _ => None)
    (fun v => String.eqb v "2.1.0")
    (fun _ => cancelSymbol)
    (fun _ => answered true)
    (fun _ _ => true)
    (fun l => l)
    (fun _ => true) (fun _ => true) (fun _ => true)
    alt.

(** Every write succeeds and the commit fails. *)
Definition commitFails : Collaborators :=
  mkCollaborators
    discover
    (fun _ => Some "1.0.0")
    (fun v => String.eqb v "2.1.0")
    (fun _ => answered "1.0.1-custom")
    (fun _ => answered true)
    (fun _ _ => true)
    (fun l => rev l)
    (fun _ => false) (fun _ => true) (fun _ => true)
    alt.

(** Batch-yes, dry-run, with a valid explicit version. *)
Definition dryBatch : ReleaseOptions :=
  mkOptions "." [] false "javascript" (Some "2.1.0") true true None None None.

(** The commit call of a run of [allFine] with [batchYes]. *)
Definition commitCall : CommitArgs :=
  mkCommitArgs false "chore: release v2.1.0"
    ["sub/pom.xml"; "Cargo.toml"; "package.json"] false true.

End Scenario.

(** * Properties *)

(** ** Message formatting *)

Section Formatting.

Lemma startsWith_placeholder c s :
  startsWith "%s" (String c s) = placeholderAt c s.
Proof.
  unfold placeholderAt; cbn [startsWith].
  rewrite (Ascii.eqb_sym "%" c).
  destruct s as [|d s']; cbn [headIs]; [reflexivity|].
  now rewrite andb_true_r, (Ascii.eqb_sym "s" d).
Qed.

Lemma includes_placeholder_cons c s :
  includes "%s" (String c s) = placeholderAt c s || includes "%s" s.
Proof.
  change (includes "%s" (String c s))
    with (startsWith "%s" (String c s) || includes "%s" s).
  now rewrite startsWith_placeholder.
Qed.

Lemma placeholderAt_true c s :
  placeholderAt c s = true -> c = "%"%char /\ exists r, s = String "s" r.
Proof.
  unfold placeholderAt; intros H; apply andb_prop in H as [Hc Hs].
  apply Ascii.eqb_eq in Hc; split; [assumption|].
  destruct s as [|d r]; simpl in Hs; [discriminate|].
  apply Ascii.eqb_eq in Hs; subst; now exists r.
Qed.

(** Induction along the scan of a template: at each position either the
    placeholder starts, and the scan moves past it, or one character is
    passed. *)
Lemma template_ind (P : string -> Prop) :
  P "" ->
  (forall r, P r -> P (String "%" (String "s" r))) ->
  (forall c s, placeholderAt c s = false -> P s -> P (String c s)) ->
  forall s, P s.
Proof.
  intros H0 Hph Hc s.
  assert (Hn : forall n s, String.length s <= n -> P s).
  { induction n as [|n IH]; intros [|c t] Hl; simpl in Hl; try assumption.
    - lia.
    - destruct (placeholderAt c t) eqn:Hp.
      + apply placeholderAt_true in Hp as [-> [r ->]].
        apply Hph, IH; simpl in Hl; lia.
      + apply Hc; [assumption|apply IH; lia]. }
  apply (Hn (String.length s)); lia.
Qed.

Lemma pieces_not_nil t : pieces t <> [].
Proof.
  destruct t as [|c t]; simpl; [discriminate|].
  destruct (pieces t); [discriminate|].
  destruct (_ && _); discriminate.
Qed.

Lemma pieces_placeholder r :
  pieces (String "%" (String "s" r)) = "" :: pieces r.
Proof.
  simpl; destruct (pieces r) as [|p ps] eqn:Hp.
  - now apply pieces_not_nil in Hp.
  - reflexivity.
Qed.

Lemma pieces_char c s :
  placeholderAt c s = false ->
  exists p ps, pieces s = p :: ps /\ pieces (String c s) = String c p :: ps.
Proof.
  intros Hc; cbn [pieces].
  destruct (pieces s) as [|p ps] eqn:Hp; [now apply pieces_not_nil in Hp|].
  exists p, ps; split; [reflexivity|].
  replace (startsWith "s" s) with (headIs "s" s).
  - fold (placeholderAt c s); now rewrite Hc.
  - destruct s as [|d s']; cbn [headIs startsWith]; [reflexivity|].
    now rewrite andb_true_r, Ascii.eqb_sym.
Qed.

Lemma joinWith_cons_char v c p ps :
  joinWith v (String c p :: ps) = String c (joinWith v (p :: ps)).
Proof. destruct ps; reflexivity. Qed.

Lemma joinWith_placeholder v r :
  joinWith v (pieces (String "%" (String "s" r)))
  = (v ++ joinWith v (pieces r))%string.
Proof.
  rewrite pieces_placeholder.
  destruct (pieces r) as [|p ps] eqn:Hp; [now apply pieces_not_nil in Hp|].
  reflexivity.
Qed.

Lemma joinWith_char v c s :
  placeholderAt c s = false ->
  joinWith v (pieces (String c s)) = String c (joinWith v (pieces s)).
Proof.
  intros Hc; destruct (pieces_char c s Hc) as (p & ps & -> & ->).
  apply joinWith_cons_char.
Qed.

(** Cutting at the placeholders loses nothing, and no piece holds one. *)
Lemma pieces_join t : joinWith "%s" (pieces t) = t.
Proof.
  induction t as [|r IH|c s Hc IH] using template_ind.
  - reflexivity.
  - rewrite joinWith_placeholder, IH; reflexivity.
  - rewrite joinWith_char, IH by assumption; reflexivity.
Qed.

Lemma pieces_head t p ps :
  pieces t = p :: ps -> headIs "s" p = true -> headIs "s" t = true.
Proof.
  revert p ps; induction t as [|r IH|c s Hc IH] using template_ind;
    intros p ps Hp Hh.
  - simpl in Hp; injection Hp as <- <-; discriminate.
  - rewrite pieces_placeholder in Hp; injection Hp as <- <-; discriminate.
  - destruct (pieces_char c s Hc) as (q & qs & _ & Hq).
    rewrite Hq in Hp; injection Hp as <- <-; exact Hh.
Qed.

Lemma pieces_clean t : Forall (fun p => includes "%s" p = false) (pieces t).
Proof.
  induction t as [|r IH|c s Hc IH] using template_ind.
  - repeat constructor.
  - rewrite pieces_placeholder; constructor; [reflexivity|assumption].
  - destruct (pieces_char c s Hc) as (p & ps & Hs & ->).
    rewrite Hs in IH; inversion IH as [|? ? Hp Hps]; subst.
    constructor; [|assumption].
    rewrite includes_placeholder_cons, Hp, orb_false_r.
    destruct (placeholderAt c p) eqn:Hcp; [|reflexivity].
    apply andb_prop in Hcp as [Hc1 Hc2].
    apply (pieces_head s p ps Hs) in Hc2.
    unfold placeholderAt in Hc; now rewrite Hc1, Hc2 in Hc.
Qed.

Lemma includes_dollar_cons c s :
  includes "$" (String c s) = Ascii.eqb c "$" || includes "$" s.
Proof. cbn [includes startsWith]; now rewrite andb_true_r, Ascii.eqb_sym. Qed.

(** A replacement text without [$] stands for itself. *)
Lemma GetSubstitution_noDollar matched before after v :
  noDollar v = true -> GetSubstitution matched before after v = v.
Proof.
  unfold noDollar; induction v as [|c v IH]; intros H; [reflexivity|].
  rewrite includes_dollar_cons, negb_orb in H.
  apply andb_prop in H as [Hc Hv].
  simpl; destruct (Ascii.eqb c "$"); [discriminate|].
  now rewrite IH.
Qed.

Lemma replaceAll_scan_pieces v :
  noDollar v = true ->
  forall t before,
    replaceAll_scan "%s" v 0 before t = joinWith v (pieces t).
Proof.
  intros Hv t; induction t as [|r IH|c s Hc IH] using template_ind;
    intros before.
  - reflexivity.
  - rewrite joinWith_placeholder.
    cbn [replaceAll_scan startsWith Ascii.eqb Bool.eqb andb String.length
         Nat.sub substringFrom].
    now rewrite GetSubstitution_noDollar, IH.
  - rewrite joinWith_char by assumption.
    cbn [replaceAll_scan]; rewrite startsWith_placeholder, Hc.
    now rewrite IH.
Qed.

Lemma headIs_append c a b :
  headIs c (a ++ b)%string
  = match a with "" => headIs c b | _ => headIs c a end.
Proof. destruct a; reflexivity. Qed.

Lemma includes_append_clean a b :
  includes "%s" a = false -> includes "%s" b = false ->
  lastIs "%" a = false -> includes "%s" (a ++ b)%string = false.
Proof.
  induction a as [|c a IH]; intros Ha Hb Hl; [assumption|].
  simpl append; rewrite includes_placeholder_cons in *.
  apply orb_false_elim in Ha as [Hc Ha].
  destruct a as [|d a'].
  - simpl in *; rewrite Hb, orb_false_r.
    unfold placeholderAt; now rewrite Hl.
  - rewrite IH by assumption.
    unfold placeholderAt in *; rewrite headIs_append; now rewrite Hc.
Qed.

Section Version.

Variable v : string.
Hypothesis v_not_empty : v <> "".
Hypothesis v_head : headIs "s" v = false.
Hypothesis v_last : lastIs "%" v = false.
Hypothesis v_clean : includes "%s" v = false.

Lemma joinWith_pieces_head t :
  headIs "s" (joinWith v (pieces t)) = true -> headIs "s" t = true.
Proof.
  induction t as [|r IH|c s Hc IH] using template_ind.
  - intros H; exact H.
  - rewrite joinWith_placeholder, headIs_append.
    destruct v; [contradiction|]; now rewrite v_head.
  - rewrite joinWith_char by assumption; intros H; exact H.
Qed.

Lemma joinWith_pieces_clean t :
  includes "%s" (joinWith v (pieces t)) = false.
Proof.
  induction t as [|r IH|c s Hc IH] using template_ind.
  - reflexivity.
  - rewrite joinWith_placeholder.
    now apply includes_append_clean.
  - rewrite joinWith_char by assumption.
    rewrite includes_placeholder_cons, IH, orb_false_r.
    destruct (placeholderAt c (joinWith v (pieces s))) eqn:Hp; [|reflexivity].
    apply andb_prop in Hp as [Hc1 Hc2].
    apply joinWith_pieces_head in Hc2.
    unfold placeholderAt in Hc; now rewrite Hc1, Hc2 in Hc.
Qed.

End Version.

End Formatting.

(** ** What the tasks do to the state *)

Lemma Effect_refl P st : Effect P st st.
Proof.
  constructor; try reflexivity.
  - exists []; now rewrite app_nil_r.
  - now left.
  - exists []; split; [now rewrite app_nil_r|constructor].
Qed.

Lemma Effect_trans P st1 st2 st3 :
  Effect P st1 st2 -> Effect P st2 st3 -> Effect P st1 st3.
Proof.
  intros [a1 a2 a3 a4 a5 [m1 a6] a7 [e1 [a8 a9]]]
         [b1 b2 b3 b4 b5 [m2 b6] b7 [e2 [b8 b9]]].
  constructor; try congruence.
  - exists (m1 ++ m2); rewrite b6, a6; now rewrite app_assoc.
  - destruct b7 as [b7|b7]; [rewrite b7; exact a7|now right].
  - exists (e1 ++ e2); split.
    + rewrite b8, a8; now rewrite app_assoc.
    + apply Forall_app; now split.
Qed.

Lemma Effect_weaken (P Q : Event -> Prop) st st' :
  (forall ev, P ev -> Q ev) -> Effect P st st' -> Effect Q st st'.
Proof.
  intros HPQ [a1 a2 a3 a4 a5 a6 a7 [evs [a8 a9]]].
  constructor; try assumption.
  exists evs; split; [assumption|].
  eapply Forall_impl; [exact HPQ|assumption].
Qed.

Lemma Effect_emit P ev st :
  P ev -> Effect P st (set_trace (trace st ++ [ev]) st).
Proof.
  intros Hev; constructor; try reflexivity.
  - exists []; simpl; now rewrite app_nil_r.
  - now left.
  - exists [ev]; split; [reflexivity|now repeat constructor].
Qed.

Lemma Effect_failed (P : Event -> Prop) st :
  P (EvStatus failed) -> Effect P st (set_taskStatus failed st).
Proof.
  intros Hev; constructor; try reflexivity.
  - exists []; simpl; now rewrite app_nil_r.
  - now right.
  - exists [EvStatus failed]; split; [reflexivity|now repeat constructor].
Qed.

Lemma Effect_modified P p st :
  Effect P st (set_modifiedFiles (modifiedFiles st ++ [p]) st).
Proof.
  constructor; try reflexivity.
  - now exists [p].
  - now left.
  - exists []; split; [simpl; now rewrite app_nil_r|constructor].
Qed.

Lemma execNames_app a b : execNames (a ++ b) = execNames a ++ execNames b.
Proof. apply flat_map_app. Qed.

Lemma statusWrites_app a b :
  statusWrites (a ++ b) = statusWrites a ++ statusWrites b.
Proof. apply flat_map_app. Qed.

Lemma execNames_none (P : Event -> Prop) evs :
  (forall n, ~ P (EvExec n)) -> Forall P evs -> execNames evs = [].
Proof.
  intros HP H; induction H as [|ev evs Hev _ IH]; [reflexivity|].
  destruct ev; simpl; try exact IH.
  now apply HP in Hev.
Qed.

Lemma statusWrites_failed (P : Event -> Prop) evs :
  (forall s, P (EvStatus s) -> s = failed) -> Forall P evs ->
  exists n, statusWrites evs = repeat failed n.
Proof.
  intros HP H; induction H as [|ev evs Hev _ [n IH]]; [now exists 0|].
  destruct ev; simpl; try (now exists n).
  apply HP in Hev; subst; exists (S n); now rewrite IH.
Qed.

Section DriverFacts.

Variable E : Collaborators.

Lemma bind_Ret {A B} (m : M A) (k : A -> M B) st a st' :
  m st = (Ret a, st') -> bind m k st = k a st'.
Proof. unfold bind; now intros ->. Qed.

Lemma check_effect (P : Event -> Prop) b st :
  P (EvStatus failed) ->
  exists st', check b st = (Ret tt, st') /\ Effect P st st'.
Proof.
  intros HP; destruct b; simpl.
  - exists st; split; [reflexivity|apply Effect_refl].
  - eexists; split; [reflexivity|now apply Effect_failed].
Qed.

Lemma launchAll_effect v files (P : Event -> Prop) :
  (forall f, In f files -> P (EvUpgrade v f)) ->
  forall st, exists st',
    launchAll v files st = (Ret tt, st') /\ Effect P st st' /\
    taskStatus st' = taskStatus st /\ modifiedFiles st' = modifiedFiles st /\
    trace st' = trace st ++ map (EvUpgrade v) files.
Proof.
  induction files as [|f fs IH]; intros HP st.
  - exists st; split; [reflexivity|].
    split; [apply Effect_refl|].
    split; [reflexivity|split; [reflexivity|]].
    simpl; now rewrite app_nil_r.
  - destruct (IH (fun g Hg => HP g (or_intror Hg))
                (set_trace (trace st ++ [EvUpgrade v f]) st))
      as (st' & Hrun & Heff & Hs & Hm & Ht).
    exists st'; split; [exact Hrun|].
    split.
    { eapply Effect_trans; [apply Effect_emit, HP; now left|exact Heff]. }
    split; [exact Hs|split; [exact Hm|]].
    rewrite Ht; simpl; now rewrite <- app_assoc.
Qed.

Lemma settleAll_effect v files :
  forall st, exists st',
    settleAll E v files st = (Ret tt, st') /\
    Effect (fun ev => ev = EvStatus failed) st st' /\
    modifiedFiles st' = modifiedFiles st ++ map path (written E v files) /\
    taskStatus st' =
      (if forallb (upgradeProjectVersion E v) files
       then taskStatus st else failed).
Proof.
  induction files as [|f fs IH]; intros st.
  - exists st; split; [reflexivity|].
    split; [apply Effect_refl|].
    split; [simpl; now rewrite app_nil_r|reflexivity].
  - cbn [settleAll]; unfold bind, settle, written; cbn [filter forallb map].
    destruct (upgradeProjectVersion E v f) eqn:Hok; cbn [modify andb].
    + destruct (IH (set_modifiedFiles (modifiedFiles st ++ [path f]) st))
        as (st' & Hrun & Heff & Hm & Hs).
      exists st'; split; [exact Hrun|].
      split; [eapply Effect_trans; [apply Effect_modified|exact Heff]|].
      split; [rewrite Hm; simpl; now rewrite <- app_assoc|exact Hs].
    + destruct (IH (set_taskStatus failed st))
        as (st' & Hrun & Heff & Hm & Hs).
      exists st'; split; [exact Hrun|].
      split; [eapply Effect_trans; [now apply Effect_failed|exact Heff]|].
      split; [exact Hm|].
      rewrite Hs; simpl; now destruct (forallb _ fs).
Qed.

(** *** One task *)

Lemma runExec_effect e st :
  exists st', runExec E e st = (Ret tt, st') /\ Effect (producedBy e) st st'.
Proof.
  destruct e as [v d files|d m sa vf|d m t|d]; cbn [runExec].
  - destruct (launchAll_effect v files (producedBy (execUpgrade v d files)))
      with (st := st) as (st1 & Hl & Heff1 & _).
    { intros f Hf; simpl; now split. }
    destruct (settleAll_effect v (settleOrder E files) st1)
      as (st2 & Hs & Heff2 & _).
    exists st2; split.
    + rewrite (bind_Ret _ _ _ _ _ Hl); exact Hs.
    + eapply Effect_trans; [exact Heff1|].
      eapply Effect_weaken; [|exact Heff2].
      intros ev ->; reflexivity.
  - unfold bind, get, emit, modify.
    set (a := mkCommitArgs d m (modifiedFiles st) sa vf).
    set (st1 := set_trace (trace st ++ [EvGitCommit a]) st).
    destruct (check_effect (producedBy (execCommit d m sa vf))
                (gitCommit E a) st1) as (st2 & Hc & Heff); [reflexivity|].
    exists st2; split.
    + change (modifiedFiles st) with (modifiedFiles st) in *.
      fold a; fold st1; now rewrite Hc.
    + eapply Effect_trans; [apply Effect_emit|exact Heff].
      simpl; auto.
  - unfold bind, get, emit, modify.
    set (a := mkTagArgs d m t).
    set (st1 := set_trace (trace st ++ [EvGitTag a]) st).
    destruct (check_effect (producedBy (execTag d m t))
                (gitTag E a) st1) as (st2 & Hc & Heff); [reflexivity|].
    exists st2; split.
    + now rewrite Hc.
    + eapply Effect_trans; [apply Effect_emit|exact Heff].
      reflexivity.
  - unfold bind, get, emit, modify.
    set (a := mkPushArgs d
                (followTags (resolveAltOptions E (options st) stepPush))).
    set (st1 := set_trace (trace st ++ [EvGitPush a]) st).
    destruct (check_effect (producedBy (execPush d))
                (gitPush E a) st1) as (st2 & Hc & Heff); [reflexivity|].
    exists st2; split.
    + now rewrite Hc.
    + eapply Effect_trans; [apply Effect_emit|exact Heff].
      reflexivity.
Qed.

(** *** The loop *)

Lemma runTasks_failed queue st :
  taskStatus st = failed -> runTasks E queue st = (Ret tt, st).
Proof.
  intros H; destruct queue as [|t q]; [reflexivity|].
  cbn [runTasks]; unfold bind, get; now rewrite H.
Qed.

Lemma runTasks_running task rest st :
  taskStatus st <> failed ->
  runTasks E (task :: rest) st =
  (runExec E (exec task) ;; runTasks E rest)
    (set_trace (trace st ++ [EvExec (name task)]) st).
Proof.
  intros H; cbn [runTasks]; unfold bind at 1, get.
  destruct (taskStatus st); try reflexivity; contradiction.
Qed.

Lemma loopStep_cons t q ev : loopStep q ev -> loopStep (t :: q) ev.
Proof. intros (u & Hu & H); exists u; split; [now right|exact H]. Qed.

Lemma runTasks_effect queue :
  forall st, exists st',
    runTasks E queue st = (Ret tt, st') /\ Effect (loopStep queue) st st' /\
    exists k, execNames (trace st') =
              execNames (trace st) ++ firstn k (map name queue).
Proof.
  induction queue as [|t q IH]; intros st.
  - exists st; split; [reflexivity|split; [apply Effect_refl|]].
    exists 0; simpl; now rewrite app_nil_r.
  - destruct (Status_eqb (taskStatus st) failed) eqn:Hst.
    + assert (Hf : taskStatus st = failed) by (now destruct (taskStatus st)).
      exists st; split; [now apply runTasks_failed|].
      split; [apply Effect_refl|].
      exists 0; simpl; now rewrite app_nil_r.
    + assert (Hf : taskStatus st <> failed)
        by (intros Hf; now rewrite Hf in Hst).
      rewrite (runTasks_running _ _ _ Hf).
      set (st0 := set_trace (trace st ++ [EvExec (name t)]) st).
      destruct (runExec_effect (exec t) st0) as (st1 & Hrun & Heff1).
      destruct (IH st1) as (st2 & Hloop & Heff2 & k & Hk).
      exists st2; split; [rewrite (bind_Ret _ _ _ _ _ Hrun); exact Hloop|].
      split.
      * eapply Effect_trans; [apply Effect_emit|].
        { exists t; split; [now left|now left]. }
        eapply Effect_trans.
        { eapply Effect_weaken; [|exact Heff1].
          intros ev Hev; exists t; split; [now left|now right]. }
        eapply Effect_weaken; [|exact Heff2].
        intros ev; apply loopStep_cons.
      * exists (S k); rewrite Hk.
        destruct Heff1 as [_ _ _ _ _ _ _ [evs [-> Hevs]]].
        rewrite execNames_app, (execNames_none _ evs (fun n H => H) Hevs).
        unfold st0; simpl; rewrite execNames_app, app_nil_r.
        now rewrite <- app_assoc.
Qed.

(** *** The part of [run] before the loop *)

Local Arguments formatMessageString : simpl never.
Local Arguments String.append : simpl never.
Local Arguments truthy : simpl nomatch.
Local Arguments validVersion : simpl never.

Lemma start_eq st :
  start st =
  (Ret tt, set_taskStatus running
             (set_envDRY (dry (options st) || envDRY st) st)).
Proof.
  unfold start, checkDryRun, bind, get, modify.
  destruct st as [cv mf nv o q s tr d]; simpl.
  now destruct (dry o).
Qed.

Lemma prepare_start st :
  prepare E st =
  (getNextVersion E ;; getProjects E ;; confirmReleaseOptions E)
    (set_taskStatus running (set_envDRY (dry (options st) || envDRY st) st)).
Proof. unfold prepare; now rewrite (bind_Ret _ _ _ _ _ (start_eq st)). Qed.

(** The scrutinee that decides the next step of a stuck computation. *)
Ltac head_scrutinee c :=
  lazymatch c with
  | match ?d with _ => _ end => head_scrutinee d
  | (match ?d with _ => _ end) _ => head_scrutinee d
  | _ => c
  end.

(** Unfolds the part of a run before the loop along every path it can take:
    the outcome of discovery, of the version lookup, of the validity check,
    of the version prompt, and of each of the three gates. *)
Ltac run_prepare H :=
  rewrite prepare_start in H;
  unfold getNextVersion, getProjects,
    confirmReleaseOptions, confirmAndSet, addTask, handleUserCancel,
    bind, get, modify, emit, throw, processExit, ret, newApp in H;
  simpl in H;
  repeat lazymatch type of H with
         | ?lhs = _ =>
             let d := head_scrutinee lhs in
             lazymatch d with
             | (_, _) => fail
             | _ => let Hc := fresh "Hc" in destruct d eqn:Hc; simpl in H
             end
         end;
  let Ho := fresh "Ho" in
  let Hs := fresh "Hs" in
  apply pair_equal_spec in H; destruct H as [Ho Hs];
  try discriminate Ho;
  lazymatch type of Hs with _ = ?x => subst x end;
  try (lazymatch type of Ho with _ = ?x => is_var x; subst x end);
  cbv beta iota delta [set_currentVersion set_nextVersion set_options
    set_taskQueue set_trace set_envDRY set_taskStatus set_modifiedFiles
    currentVersion modifiedFiles nextVersion options taskQueue taskStatus
    trace envDRY].

Lemma prepare_setup opts o st :
  prepare E (newApp opts) = (o, st) ->
  Forall setupStep (trace st) /\ statusWrites (trace st) = [running] /\
  taskStatus st = running /\ modifiedFiles st = [].
Proof.
  intros H; run_prepare H;
    (split; [repeat constructor|split; [reflexivity|split; reflexivity]]).
Qed.

(** Brings the recorded decisions of a path into the form the goals use. *)
Ltac path_facts :=
  repeat match goal with
         | H : negb _ = true |- _ => apply negb_true_iff in H
         | H : negb _ = false |- _ => apply negb_false_iff in H
         | H : truthy (Some ?b) = true |- _ =>
             is_var b; destruct b; [clear H|discriminate H]
         | H : truthy (Some ?b) = false |- _ =>
             is_var b; destruct b; [discriminate H|clear H]
         end.

(** Goes through the steps of an explicit trace that a hypothesis of
    membership can stand for. *)
Ltac in_trace Hin :=
  simpl in Hin;
  repeat match type of Hin with
         | _ \/ _ => destruct Hin as [Hin|Hin]; [try discriminate Hin|]
         | False => contradiction
         end.

Lemma prepare_queue opts st :
  prepare E (newApp opts) = (Ret tt, st) ->
  taskQueue st = expectedQueue E opts st.
Proof.
  intros H; run_prepare H; path_facts; unfold expectedQueue;
    cbn [currentVersion modifiedFiles nextVersion options
      taskQueue taskStatus trace envDRY commit tag push truthy];
    repeat match goal with
           | H : truthy _ = _ |- _ => rewrite H
           end;
    reflexivity.
Qed.

(** The version the run works with is the valid explicit one, or else
    whatever the version prompt answered. *)
Lemma prepare_version opts o st :
  prepare E (newApp opts) = (o, st) ->
  (forall cv, In (EvChooseVersion cv) (trace st) ->
     validVersion E (version opts) = None /\
     forall v, chooseVersion E cv = answered v -> nextVersion st = v) /\
  (forall v, validVersion E (version opts) = Some v ->
     o = Ret tt -> nextVersion st = v).
Proof.
  intros H; run_prepare H; path_facts;
    (split;
     [ intros cv Hin; in_trace Hin;
       (injection Hin as <-;
        (split; [first [assumption|reflexivity]|intros v Hv; congruence]))
     | intros v Hv Ho; first [congruence|discriminate Ho] ]).
Qed.

Lemma find_in_empty {A} (p : A -> bool) (l : list A) (x : A) :
  (List.length l =? 0)%nat = true -> find p l = Some x -> False.
Proof. destruct l; [discriminate 2|discriminate 1]. Qed.

(** When the main project file is found and no valid explicit version
    was given, the version prompt is issued, with the version read from
    that file. *)
Lemma prepare_choose_reached opts o st f :
  prepare E (newApp opts) = (o, st) ->
  find (fun file => String.eqb (category file) (main opts))
    (findProjectFiles E (dir opts) (excludes opts) None) = Some f ->
  validVersion E (version opts) = None ->
  In (EvChooseVersion
        (match getProjectVersion E f with Some c => c | None => "" end))
    (trace st).
Proof.
  intros H Hfind Hvalid; run_prepare H; try congruence;
    try (exfalso; eapply find_in_empty; eassumption);
    match goal with
    | Ha : find ?g ?l = Some ?p, Hb : find ?g ?l = Some ?q |- _ =>
        assert (p = q) by congruence; subst
    | Hb : Some _ = Some _ |- _ => injection Hb as <-
    end;
    simpl; auto 20.
Qed.

Lemma discoveries_app a b :
  discoveries (a ++ b) = discoveries a ++ discoveries b.
Proof. apply flat_map_app. Qed.

Lemma discoveries_none (P : Event -> Prop) evs :
  (forall d ex r, ~ P (EvFindProjectFiles d ex r)) -> Forall P evs ->
  discoveries evs = [].
Proof.
  intros HP H; induction H as [|ev evs Hev _ IH]; [reflexivity|].
  destruct ev; simpl; try exact IH.
  now apply HP in Hev.
Qed.

Lemma prepare_discoveries opts o st :
  prepare E (newApp opts) = (o, st) ->
  (discoveries (trace st) = [(dir opts, excludes opts, None)] /\ o <> Ret tt
   \/
   discoveries (trace st) =
     [(dir opts, excludes opts, None);
      (dir opts, excludes opts, Some (recursive opts))]) /\
  (forall f, In (EvGetProjectVersion f) (trace st) ->
     find (fun file => String.eqb (category file) (main opts))
       (findProjectFiles E (dir opts) (excludes opts) None) = Some f).
Proof.
  intros H; run_prepare H;
    (split;
     [ first [ left; split; [reflexivity|discriminate] | right; reflexivity ]
     | intros f Hin; in_trace Hin;
       (injection Hin as <-; first [assumption|reflexivity]) ]).
Qed.

(** A cancelled commit prompt ends the part before the loop at once. *)
Lemma prepare_commit_cancelled opts o st :
  prepare E (newApp opts) = (o, st) ->
  In (EvConfirm "should commit?") (trace st) ->
  confirm E "should commit?" = cancelSymbol ->
  o = Exit Canceled /\
  ~ In (EvConfirm "should create tag?") (trace st) /\
  ~ In (EvConfirm "should push to remote?") (trace st) /\
  map name (taskQueue st) = ["upgradeVersion"] /\
  options st = opts /\
  exists tr, trace st = tr ++ [EvConfirm "should commit?"; EvCancel].
Proof.
  intros H Hin Hcancel; run_prepare H; path_facts;
    try congruence; in_trace Hin.
  all: split; [reflexivity|].
  all: split; [intros Hin'; in_trace Hin'|].
  all: split; [intros Hin'; in_trace Hin'|].
  all: split; [reflexivity|split; [reflexivity|]].
  all: first [ eexists [_; _; _; _]; reflexivity
             | eexists [_; _; _; _; _]; reflexivity ].
Qed.

(** *** The shape of a whole run *)

Lemma run_after_prepare st :
  run E st =
  (prepare E ;; st1 <- get ;; runTasks E (taskQueue st1) ;; done) st.
Proof.
  unfold run, prepare, bind.
  destruct (start st) as [[[]|c|e] s1]; try reflexivity.
  all: destruct (getNextVersion E s1) as [[[]|c|e] s2]; try reflexivity.
  all: destruct (getProjects E s2) as [[[]|c|e] s3]; try reflexivity.
  all: destruct (confirmReleaseOptions E s3) as [[[]|c|e] s4]; reflexivity.
Qed.

Lemma run_cases opts o st :
  run E (newApp opts) = (o, st) ->
  (exists st1 st2,
     prepare E (newApp opts) = (Ret tt, st1) /\
     runTasks E (taskQueue st1) st1 = (Ret tt, st2) /\
     o = Ret tt /\ st = set_taskStatus finished st2)
  \/ (prepare E (newApp opts) = (o, st) /\ o <> Ret tt).
Proof.
  rewrite run_after_prepare; unfold bind at 1.
  destruct (prepare E (newApp opts)) as [[[]|c|e] s1];
    [|intros H; injection H as <- <-; right; split;
      [reflexivity|discriminate]..].
  destruct (runTasks_effect (taskQueue s1) s1) as (s2 & Hloop & _).
  unfold bind, get, done, modify; rewrite Hloop.
  intros H; injection H as <- <-; left.
  exists s1, s2; repeat split; assumption.
Qed.

(** *** The version-update task *)

Lemma upgrade_exec v d files st :
  exists st' evs,
    runExec E (execUpgrade v d files) st = (Ret tt, st') /\
    Effect (producedBy (execUpgrade v d files)) st st' /\
    trace st' = trace st ++ map (EvUpgrade v) files ++ evs /\
    Forall (fun ev => ev = EvStatus failed) evs /\
    modifiedFiles st' =
      modifiedFiles st ++ map path (written E v (settleOrder E files)) /\
    taskStatus st' =
      (if forallb (upgradeProjectVersion E v) (settleOrder E files)
       then taskStatus st else failed).
Proof.
  destruct (runExec_effect (execUpgrade v d files) st) as (st' & Hrun & Heff).
  cbn [runExec] in Hrun.
  destruct (launchAll_effect v files (fun _ => True) (fun _ _ => I) st)
    as (st1 & Hl & _ & Hs1 & Hm1 & Ht1).
  destruct (settleAll_effect v (settleOrder E files) st1)
    as (st2 & Hs & [_ _ _ _ _ _ _ [evs [Ht2 Hevs]]] & Hm2 & Hs2).
  rewrite (bind_Ret _ _ _ _ _ Hl), Hs in Hrun; injection Hrun as <-.
  exists st2, evs; split; [|split; [exact Heff|]].
  - cbn [runExec]; now rewrite (bind_Ret _ _ _ _ _ Hl).
  - split; [rewrite Ht2, Ht1; now rewrite <- app_assoc|].
    split; [exact Hevs|].
    split; [now rewrite Hm2, Hm1|now rewrite Hs2, Hs1].
Qed.

Lemma filter_Permutation {A} (p : A -> bool) (l l' : list A) :
  Permutation l l' -> Permutation (filter p l) (filter p l').
Proof.
  induction 1 as [|x l l' _ IH|x y l|l l' l'' _ IH1 _ IH2]; simpl.
  - constructor.
  - destruct (p x); [now constructor|assumption].
  - destruct (p x), (p y); try reflexivity; constructor.
  - now transitivity (filter p l').
Qed.

Lemma forallb_false_iff {A} (p : A -> bool) (l : list A) :
  forallb p l = false <-> exists x, In x l /\ p x = false.
Proof.
  induction l as [|a l IH]; simpl.
  - split; [discriminate|intros (x & [] & _)].
  - rewrite andb_false_iff, IH; split.
    + intros [Ha|(x & Hx & Hpx)]; [exists a; now split; [left|]|].
      exists x; split; [now right|assumption].
    + intros (x & [->|Hx] & Hpx); [now left|right; now exists x].
Qed.

(** *** Fail-fast along a queue *)

Lemma runTasks_append pre post st st1 :
  runTasks E pre st = (Ret tt, st1) ->
  runTasks E (pre ++ post) st = runTasks E post st1.
Proof.
  revert st; induction pre as [|t q IH]; intros st H.
  - injection H as <-; reflexivity.
  - destruct (Status_eqb (taskStatus st) failed) eqn:Hst.
    + assert (Hf : taskStatus st = failed) by (now destruct (taskStatus st)).
      rewrite (runTasks_failed _ _ Hf) in H; injection H as <-.
      now rewrite !runTasks_failed by exact Hf.
    + assert (Hf : taskStatus st <> failed)
        by (intros Hf; now rewrite Hf in Hst).
      simpl app; rewrite (runTasks_running _ _ _ Hf).
      rewrite (runTasks_running _ _ _ Hf) in H.
      destruct (runExec_effect (exec t)
                  (set_trace (trace st ++ [EvExec (name t)]) st))
        as (st' & Hrun & _).
      rewrite (bind_Ret _ _ _ _ _ Hrun); rewrite (bind_Ret _ _ _ _ _ Hrun) in H.
      now apply IH.
Qed.

(** The first task of a run that reaches the loop is the version update,
    and it is always executed. *)
Lemma loop_first_task opts st1 st2 :
  prepare E (newApp opts) = (Ret tt, st1) ->
  runTasks E (taskQueue st1) st1 = (Ret tt, st2) ->
  let v := nextVersion st1 in
  let files :=
    findProjectFiles E (dir opts) (excludes opts) (Some (recursive opts)) in
  exists st' evs,
    runTasks E (tl (taskQueue st1)) st' = (Ret tt, st2) /\
    Effect (producedBy (execUpgrade v (dir opts) files))
      (set_trace (trace st1 ++ [EvExec "upgradeVersion"]) st1) st' /\
    trace st' =
      trace st1 ++ EvExec "upgradeVersion" :: map (EvUpgrade v) files ++ evs /\
    Forall (fun ev => ev = EvStatus failed) evs /\
    modifiedFiles st' = map path (written E v (settleOrder E files)) /\
    taskStatus st' =
      (if forallb (upgradeProjectVersion E v) (settleOrder E files)
       then running else failed).
Proof.
  intros Hprep Hloop v files.
  destruct (prepare_setup _ _ _ Hprep) as (_ & _ & Hst & Hmf).
  rewrite (prepare_queue _ _ Hprep) in *; unfold expectedQueue in *.
  fold v files in Hloop |- *.
  rewrite runTasks_running in Hloop by (rewrite Hst; discriminate).
  cbn [exec name] in Hloop.
  destruct (upgrade_exec v (dir opts) files
              (set_trace (trace st1 ++ [EvExec "upgradeVersion"]) st1))
    as (st' & evs & Hrun & Heff & Ht & Hevs & Hm & Hs).
  rewrite (bind_Ret _ _ _ _ _ Hrun) in Hloop.
  exists st', evs; split; [exact Hloop|split; [exact Heff|]].
  split; [rewrite Ht; simpl; now rewrite <- app_assoc|].
  split; [exact Hevs|].
  split; [rewrite Hm; simpl; now rewrite Hmf|].
  rewrite Hs; simpl; now rewrite Hst.
Qed.

Lemma in_expectedQueue opts st t :
  In t (expectedQueue E opts st) ->
  let alt := resolveAltOptions E opts stepCommit in
  let message := formatMessageString (template alt) (nextVersion st) in
  t = mkTask (execUpgrade (nextVersion st) (dir opts)
                (findProjectFiles E (dir opts) (excludes opts)
                   (Some (recursive opts)))) "upgradeVersion" \/
  t = mkTask (execCommit (dry opts) message (stageAll alt) (verify alt))
        "commit" \/
  t = mkTask (execTag (dry opts) message ("v" ++ nextVersion st)%string)
        "tag" \/
  t = mkTask (execPush (dry opts)) "push".
Proof.
  unfold expectedQueue; intros [H|H]; [now left|right].
  repeat (apply in_app_or in H as [H|H]);
    [destruct (truthy (commit (options st)))
    |destruct (truthy (tag (options st)))
    |destruct (truthy (push (options st)))];
    simpl in H; try contradiction; destruct H as [H|[]]; auto.
Qed.

(** *** More on the part of [run] before the loop *)

Lemma length_zero_nil {A} (l : list A) :
  (List.length l =? 0)%nat = true -> l = [].
Proof. destruct l; [reflexivity|discriminate]. Qed.

Lemma prepare_no_files opts o st :
  prepare E (newApp opts) = (o, st) ->
  findProjectFiles E (dir opts) (excludes opts) None = [] ->
  o = Throw "can't found any project file in the project root" /\
  trace st =
    [EvStatus running; EvFindProjectFiles (dir opts) (excludes opts) None] /\
  taskQueue st = [] /\ nextVersion st = "" /\ currentVersion st = "".
Proof.
  intros H Hnil; run_prepare H;
    try (match goal with
         | Hc : (List.length _ =? 0)%nat = false |- _ =>
             rewrite Hnil in Hc; discriminate Hc
         end);
    repeat split; reflexivity.
Qed.

Lemma prepare_no_main opts o st :
  prepare E (newApp opts) = (o, st) ->
  findProjectFiles E (dir opts) (excludes opts) None <> [] ->
  find (fun file => String.eqb (category file) (main opts))
    (findProjectFiles E (dir opts) (excludes opts) None) = None ->
  o = Throw ("can't found " ++ main opts ++
             " project file in the project root")%string /\
  trace st =
    [EvStatus running; EvFindProjectFiles (dir opts) (excludes opts) None] /\
  taskQueue st = [] /\ nextVersion st = "" /\ currentVersion st = "".
Proof.
  intros H Hne Hnone; run_prepare H; try congruence;
    try (match goal with
         | Hc : (List.length _ =? 0)%nat = true |- _ =>
             apply length_zero_nil in Hc; contradiction
         end);
    repeat split; reflexivity.
Qed.

Lemma validVersion_Some v s :
  version v = Some s -> isVersionValid E s = true ->
  validVersion E (version v) = Some s.
Proof. intros Hv Hs; unfold validVersion; now rewrite Hv, Hs. Qed.

(** Makes the main file of a path the one a hypothesis names. *)
Ltac same_main :=
  match goal with
  | Ha : find ?g ?l = Some ?p, Hb : find ?g ?l = Some ?q |- _ =>
      assert (p = q) by congruence; subst
  | Hb : @Some ProjectFile _ = Some _ |- _ => injection Hb as <-
  end.

Lemma prepare_explicit opts o st f v :
  prepare E (newApp opts) = (o, st) ->
  find (fun file => String.eqb (category file) (main opts))
    (findProjectFiles E (dir opts) (excludes opts) None) = Some f ->
  validVersion E (version opts) = Some v ->
  (forall cv, ~ In (EvChooseVersion cv) (trace st)) /\
  nextVersion st = v /\
  currentVersion st = currentOf E f /\
  In (EvGetProjectVersion f) (trace st) /\
  (o = Ret tt \/ o = Exit Canceled).
Proof.
  intros H Hfind Hvalid; run_prepare H; try congruence;
    try (exfalso; eapply find_in_empty; eassumption);
    same_main;
    (split; [intros cv Hin; in_trace Hin|]);
    (split; [congruence|]);
    (split; [reflexivity|]);
    (split; [simpl; auto|auto]).
Qed.

Lemma prepare_choose_cancelled opts o st f :
  prepare E (newApp opts) = (o, st) ->
  find (fun file => String.eqb (category file) (main opts))
    (findProjectFiles E (dir opts) (excludes opts) None) = Some f ->
  validVersion E (version opts) = None ->
  chooseVersion E (currentOf E f) = cancelSymbol ->
  o = Exit Canceled /\
  trace st =
    [EvStatus running; EvFindProjectFiles (dir opts) (excludes opts) None;
     EvGetProjectVersion f; EvChooseVersion (currentOf E f); EvCancel] /\
  taskQueue st = [] /\ nextVersion st = "" /\
  currentVersion st = currentOf E f.
Proof.
  unfold currentOf.
  intros H Hfind Hvalid Hcancel; run_prepare H; try congruence;
    try (exfalso; eapply find_in_empty; eassumption);
    same_main; try congruence;
    repeat split; reflexivity.
Qed.

Lemma prepare_yes opts o st :
  prepare E (newApp opts) = (o, st) ->
  yes opts = true ->
  (forall m, ~ In (EvConfirm m) (trace st)) /\
  (o = Ret tt ->
   commit (options st) = Some true /\ tag (options st) = Some true /\
   push (options st) = Some true /\
   map name (taskQueue st) = ["upgradeVersion"; "commit"; "tag"; "push"]).
Proof.
  intros H Hyes; run_prepare H; try congruence;
    (split;
     [ intros m Hin; in_trace Hin
     | intros Ho; first [discriminate Ho | repeat split; reflexivity] ]).
Qed.

Lemma prepare_exit opts o st :
  prepare E (newApp opts) = (o, st) ->
  envDRY st = dry opts /\
  (o = Exit Canceled <-> In EvCancel (trace st)) /\
  (o = Exit Canceled -> exists tr, trace st = tr ++ [EvCancel]) /\
  (o = Ret tt \/ o = Exit Canceled \/ exists e, o = Throw e).
Proof.
  intros H; run_prepare H;
    (split; [apply orb_false_r|]);
    (split;
     [ split; intros Hx;
       first [ discriminate Hx | reflexivity | solve [in_trace Hx]
             | solve [simpl; auto 20] ]
     |]);
    (split;
     [ intros Hx;
       first [ discriminate Hx
             | eexists [_; _; _; _]; reflexivity
             | eexists [_; _; _; _; _]; reflexivity
             | eexists [_; _; _; _; _; _]; reflexivity
             | eexists [_; _; _; _; _; _; _]; reflexivity
             | eexists [_; _; _; _; _; _; _; _]; reflexivity ]
     | eauto ]).
Qed.

(** *** More on the tasks *)

Lemma settleAll_trace v files :
  forall st st',
    settleAll E v files st = (Ret tt, st') ->
    trace st' =
    trace st ++
    map (fun _ => EvStatus failed)
      (filter (fun f => negb (upgradeProjectVersion E v f)) files).
Proof.
  induction files as [|f fs IH]; intros st st' H.
  - injection H as <-; simpl; now rewrite app_nil_r.
  - cbn [settleAll] in H; unfold bind, settle in H; cbn [filter].
    destruct (upgradeProjectVersion E v f) eqn:Hok; cbn [modify negb] in H |- *.
    + now rewrite (IH _ _ H).
    + rewrite (IH _ _ H); simpl; now rewrite <- app_assoc.
Qed.

Lemma upgrade_exec_trace v d files st st' :
  runExec E (execUpgrade v d files) st = (Ret tt, st') ->
  trace st' =
  trace st ++ map (EvUpgrade v) files ++
  map (fun _ => EvStatus failed)
    (filter (fun f => negb (upgradeProjectVersion E v f))
       (settleOrder E files)).
Proof.
  cbn [runExec]; intros H.
  destruct (launchAll_effect v files (fun _ => True) (fun _ _ => I) st)
    as (st1 & Hl & _ & _ & _ & Ht1).
  rewrite (bind_Ret _ _ _ _ _ Hl) in H.
  rewrite (settleAll_trace _ _ _ _ H), Ht1; now rewrite <- app_assoc.
Qed.

Lemma forallb_filter_id {A} (p : A -> bool) (l : list A) :
  forallb p l = true -> filter p l = l.
Proof.
  induction l as [|a l IH]; simpl; [reflexivity|].
  intros H; apply andb_prop in H as [-> Hl]; now rewrite IH.
Qed.

Lemma forallb_filter_negb {A} (p : A -> bool) (l : list A) :
  forallb p l = true -> filter (fun x => negb (p x)) l = [].
Proof.
  induction l as [|a l IH]; simpl; [reflexivity|].
  intros H; apply andb_prop in H as [-> Hl]; now apply IH.
Qed.

Lemma enabledSteps_stepsOf o :
  enabledSteps o =
  stepsOf (truthy (commit o)) (truthy (tag o)) (truthy (push o)).
Proof.
  unfold enabledSteps, stepsOf; cbn [filter getFlag].
  now destruct (truthy (commit o)), (truthy (tag o)), (truthy (push o)).
Qed.

(** Runs the optional tasks along every outcome of their git commands. *)
Ltac run_gated H :=
  unfold gatedQueue in H; cbn [app runTasks] in H;
  unfold runExec, check, bind, get, emit, modify, ret in H;
  simpl in H;
  repeat lazymatch type of H with
         | ?lhs = _ =>
             let d := head_scrutinee lhs in
             lazymatch d with
             | (_, _) => fail
             | _ => let Hc := fresh "Hc" in destruct d eqn:Hc; simpl in H
             end
         end;
  let Hs := fresh "Hs" in
  injection H as Hs; subst.

Lemma gated_loop fc ft fp d m sa vf d2 m2 tn d3 st st2 :
  taskStatus st = running ->
  runTasks E
    (gatedQueue fc ft fp (execCommit d m sa vf) (execTag d2 m2 tn)
       (execPush d3)) st = (Ret tt, st2) ->
  exists evs,
    trace st2 = trace st ++ evs /\
    modifiedFiles st2 = modifiedFiles st /\
    (taskStatus st2 = failed <-> In (EvStatus failed) evs) /\
    GitPhase E fc ft fp
      (mkCommitArgs d m (modifiedFiles st) sa vf)
      (mkTagArgs d2 m2 tn)
      (mkPushArgs d3 (followTags (resolveAltOptions E (options st) stepPush)))
      evs.
Proof.
  intros Hst H.
  destruct st as [cv mf nv o q s tr dr]; cbn [taskStatus] in Hst; subst s.
  destruct fc, ft, fp; run_gated H;
    cbn [trace set_trace set_taskStatus modifiedFiles options taskStatus];
    rewrite <- ?app_assoc; cbn [app];
    (first [ exists []; split; [now rewrite app_nil_r|]
           | eexists; split; [reflexivity|] ]);
    (split; [reflexivity|]);
    (split;
     [ split; intros Hx;
       first [ discriminate Hx | reflexivity | solve [in_trace Hx]
             | solve [simpl; auto 20] ]
     |]);
    unfold GitPhase;
    (split;
     [ intros a Hin; in_trace Hin;
       (injection Hin as <-;
        (split; [reflexivity|split; [reflexivity|]]);
        intros Hf;
        first [ congruence
              | split; intros x Hx; in_trace Hx ])
     |]);
    (split;
     [ intros a Hin; in_trace Hin;
       (injection Hin as <-;
        (split; [reflexivity|split; [reflexivity|]]);
        intros Hf;
        first [ congruence | intros x Hx; in_trace Hx ])
     |]);
    (split;
     [ intros a Hin; in_trace Hin;
       (injection Hin as <-; split; reflexivity)
     |]);
    (split;
     [ intros Hn;
       first [ reflexivity | exfalso; apply Hn; simpl; auto 20 ]
     |]);
    (split;
     [ first [ exists 0; reflexivity | exists 1; reflexivity
             | exists 2; reflexivity | exists 3; reflexivity ]
     | reflexivity ]).
Qed.

Lemma prepare_throw opts o st :
  prepare E (newApp opts) = (o, st) ->
  ((exists e, o = Throw e) <->
   find (fun file => String.eqb (category file) (main opts))
     (findProjectFiles E (dir opts) (excludes opts) None) = None).
Proof.
  intros H; run_prepare H;
    (split;
     [ intros [e He];
       first [ discriminate He
             | reflexivity
             | match goal with
               | Hc : (List.length _ =? 0)%nat = true |- _ =>
                   apply length_zero_nil in Hc; rewrite Hc; reflexivity
               end ]
     | intros Hx; first [ discriminate Hx | eexists; reflexivity ] ]).
Qed.

End DriverFacts.

(** * The claims *)

Section Claims.

Variable E : Collaborators.

Lemma setupStep_onlyVersionUpdate ev : setupStep ev -> onlyVersionUpdate ev.
Proof. destruct ev; simpl; auto; contradiction. Qed.

(** C1. Fail-fast.  The loop of [run] looks at the status before each
    task: if running a prefix of the queue leaves the status [failed], the
    rest of the queue changes nothing, no task of it is started.  And in a
    whole run, if the write of some discovered file fails in the
    version-update task, the trace holds no git command and no started
    task but the version update, whatever the options, the batch-yes flag
    included. *)
Theorem fail_fast :
  (forall pre post st st1,
     runTasks E pre st = (Ret tt, st1) ->
     taskStatus st1 = failed ->
     runTasks E (pre ++ post) st = (Ret tt, st1)) /\
  (forall opts o st f,
     run E (newApp opts) = (o, st) ->
     let files :=
       findProjectFiles E (dir opts) (excludes opts) (Some (recursive opts)) in
     Permutation (settleOrder E files) files ->
     In f files ->
     upgradeProjectVersion E (nextVersion st) f = false ->
     Forall onlyVersionUpdate (trace st)).
Proof.
  split.
  - intros pre post st st1 Hpre Hfailed.
    rewrite (runTasks_append E _ post _ _ Hpre).
    now apply runTasks_failed.
  - intros opts o st f Hrun files Hperm Hf Hbad.
    destruct (run_cases E _ _ _ Hrun)
      as [(st1 & st2 & Hprep & Hloop & -> & ->)|[Hprep _]].
    + destruct (loop_first_task E _ _ _ Hprep Hloop)
        as (st' & evs & Hrest & Heff & Ht & Hevs & _ & Hs).
      fold files in Heff, Ht, Hs.
      assert (Hv : nextVersion st1 = nextVersion st2).
      { destruct (runTasks_effect E (tl (taskQueue st1)) st')
          as (st3 & Hrest' & [_ Hn _ _ _ _ _ _] & _).
        rewrite Hrest in Hrest'; injection Hrest' as <-.
        rewrite Hn; now destruct Heff as [_ -> _ _ _ _ _ _]. }
      simpl in Hbad; rewrite <- Hv in Hbad.
      assert (Hall : forallb (upgradeProjectVersion E (nextVersion st1))
                       (settleOrder E files) = false).
      { apply forallb_false_iff; exists f; split; [|exact Hbad].
        eapply Permutation_in; [apply Permutation_sym; exact Hperm|exact Hf]. }
      rewrite Hall in Hs.
      rewrite (runTasks_failed E _ _ Hs) in Hrest; injection Hrest as <-.
      simpl; rewrite Ht.
      destruct (prepare_setup E _ _ _ Hprep) as (Hsetup & _).
      rewrite <- app_assoc; apply Forall_app; split.
      { eapply Forall_impl; [apply setupStep_onlyVersionUpdate|exact Hsetup]. }
      simpl; constructor; [reflexivity|].
      rewrite <- app_assoc; apply Forall_app; split.
      { apply Forall_forall; intros ev Hev; apply in_map_iff in Hev.
        destruct Hev as (g & <- & _); exact I. }
      apply Forall_app; split; [|repeat constructor].
      eapply Forall_impl; [|exact Hevs].
      intros ev ->; exact I.
    + destruct (prepare_setup E _ _ _ Hprep) as (Hsetup & _).
      eapply Forall_impl; [apply setupStep_onlyVersionUpdate|exact Hsetup].
Qed.

Lemma loopStep_status queue s : loopStep queue (EvStatus s) -> s = failed.
Proof. intros (t & _ & [H|H]); [discriminate H|exact H]. Qed.

Lemma loopStep_exec_only queue ev :
  loopStep queue ev ->
  match ev with
  | EvFindProjectFiles _ _ _ | EvGetProjectVersion _ | EvChooseVersion _
  | EvConfirm _ | EvCancel => False
  | _ => True
  end.
Proof.
  intros (t & _ & [H|H]); [now subst|].
  destruct ev; simpl in *; auto.
Qed.

(** C2, as the code has it.  [finished] is assigned once, by [#done], as
    the last step of a run that reaches the loop.  [failed] is kept by
    every task and by the loop (the only value they assign is [failed]),
    but [#done] then assigns [finished] whatever the status was: the values
    assigned in a completed run are [running], then [failed] any number of
    times, then [finished].  A run that stops before the loop has only
    assigned [running]. *)
Theorem status_history opts o st :
  run E (newApp opts) = (o, st) ->
  (o = Ret tt /\ taskStatus st = finished /\
   exists n, statusWrites (trace st) = running :: repeat failed n ++ [finished])
  \/
  (o <> Ret tt /\ taskStatus st = running /\
   statusWrites (trace st) = [running]).
Proof.
  intros Hrun.
  destruct (run_cases E _ _ _ Hrun)
    as [(st1 & st2 & Hprep & Hloop & -> & ->)|[Hprep Ho]].
  - left; split; [reflexivity|split; [reflexivity|]].
    destruct (prepare_setup E _ _ _ Hprep) as (_ & Hw & _).
    destruct (runTasks_effect E (taskQueue st1) st1)
      as (st3 & Hloop' & [_ _ _ _ _ _ _ [evs [Ht Hevs]]] & _).
    rewrite Hloop in Hloop'; injection Hloop' as <-.
    destruct (statusWrites_failed _ evs (loopStep_status _) Hevs) as [n Hn].
    exists n; simpl.
    now rewrite statusWrites_app, Ht, statusWrites_app, Hw, Hn.
  - right; split; [exact Ho|].
    destruct (prepare_setup E _ _ _ Hprep) as (_ & Hw & Hs & _).
    now split.
Qed.


(** C4. Partial failure of the version-update task.  Started with the
    status [running], the task attempts the write of every file of the
    list, in the order of the list, before any of them settles; whatever
    the order in which the writes settle, [modifiedFiles] grows by exactly
    the paths of the files whose write succeeded; and the status the task
    leaves is [failed] exactly when some write failed. *)
Theorem partial_failure v d files st :
  Permutation (settleOrder E files) files ->
  taskStatus st = running ->
  exists st' evs,
    runExec E (execUpgrade v d files) st = (Ret tt, st') /\
    trace st' = trace st ++ map (EvUpgrade v) files ++ evs /\
    Forall (fun ev => ev = EvStatus failed) evs /\
    Permutation (modifiedFiles st')
      (modifiedFiles st ++ map path (written E v files)) /\
    (taskStatus st' = failed <->
     exists f, In f files /\ upgradeProjectVersion E v f = false) /\
    (taskStatus st' = running <->
     forall f, In f files -> upgradeProjectVersion E v f = true).
Proof.
  intros Hperm Hst.
  destruct (upgrade_exec E v d files st)
    as (st' & evs & Hrun & _ & Ht & Hevs & Hm & Hs).
  exists st', evs; split; [exact Hrun|split; [exact Ht|split; [exact Hevs|]]].
  split.
  { rewrite Hm; apply Permutation_app_head, Permutation_map.
    now apply filter_Permutation. }
  rewrite Hs, Hst.
  destruct (forallb _ (settleOrder E files)) eqn:Hall.
  - assert (Hok : forall f, In f files -> upgradeProjectVersion E v f = true).
    { intros f Hf; rewrite forallb_forall in Hall; apply Hall.
      eapply Permutation_in; [apply Permutation_sym; exact Hperm|exact Hf]. }
    split; split; auto; try discriminate.
    intros (f & Hf & Hbad); rewrite (Hok f Hf) in Hbad; discriminate.
  - apply forallb_false_iff in Hall as (f & Hf & Hbad).
    apply (Permutation_in _ Hperm) in Hf.
    split; split; try discriminate; eauto.
    intros Hok; rewrite (Hok f Hf) in Hbad; discriminate.
Qed.

(** C5, as the code has it.  With batch-yes off, a gate whose option is
    already true uses it without a prompt: the task is queued and nothing
    else changes, the trace included.  An option that is false is treated
    like one that was never given: the prompt is issued, and its answer
    replaces the option: the answer is stored in the step's option, the
    options of the other steps are left alone, and the task is queued
    exactly when the answer is yes.  A cancelled prompt stores nothing,
    queues nothing and exits. *)
Theorem gate_without_prompt n message e st :
  (truthy (getFlag n (options st)) = true ->
   confirmAndSet E false n message e st =
   (Ret tt, set_taskQueue (taskQueue st ++ [mkTask e (stepKey n)]) st)) /\
  (truthy (getFlag n (options st)) = false ->
   (exists o st' evs,
      confirmAndSet E false n message e st = (o, st') /\
      trace st' = trace st ++ EvConfirm message :: evs) /\
   (forall b,
      confirm E message = answered b ->
      exists st',
        confirmAndSet E false n message e st = (Ret tt, st') /\
        trace st' = trace st ++ [EvConfirm message] /\
        getFlag n (options st') = Some b /\
        (forall n', n' <> n ->
                    getFlag n' (options st') = getFlag n' (options st)) /\
        taskQueue st' =
          taskQueue st ++ (if b then [mkTask e (stepKey n)] else [])) /\
   (confirm E message = cancelSymbol ->
    exists st',
      confirmAndSet E false n message e st = (Exit Canceled, st') /\
      trace st' = trace st ++ [EvConfirm message; EvCancel] /\
      options st' = options st /\ taskQueue st' = taskQueue st)).
Proof.
  unfold confirmAndSet, addTask, handleUserCancel, bind, get, modify, emit,
    processExit, ret.
  split; intros Hflag; rewrite Hflag; cbn [negb].
  - cbn [options set_taskQueue]; now rewrite Hflag.
  - split; [|split].
    + destruct (confirm E message) as [b|].
      * cbn [options set_options set_trace].
        destruct n, b; cbn [getFlag setFlag commit tag push truthy];
          do 3 eexists; (split; [reflexivity|]);
          cbn [trace set_taskQueue set_options set_trace];
          reflexivity.
      * exists (Exit Canceled); eexists; exists [EvCancel].
        split; [reflexivity|].
        cbn [trace set_trace]; now rewrite <- app_assoc.
    + intros b Hanswer; rewrite Hanswer.
      cbn [options set_options set_trace].
      destruct n, b; cbn [getFlag setFlag commit tag push truthy];
        eexists; (split; [reflexivity|]);
        cbn [options taskQueue trace set_taskQueue set_options set_trace
             getFlag commit tag push];
        (split; [reflexivity|]);
        (split; [reflexivity|]);
        (split;
         [intros n' Hn'; destruct n'; try reflexivity; now elim Hn'|]);
        first [reflexivity|now rewrite app_nil_r].
    + intros Hcancel; rewrite Hcancel.
      eexists; split; [reflexivity|].
      cbn [trace options taskQueue set_trace].
      split; [now rewrite <- app_assoc|split; reflexivity].
Qed.

Lemma discoveries_loop queue evs :
  Forall (loopStep queue) evs -> discoveries evs = [].
Proof.
  apply discoveries_none; intros d ex r H.
  exact (loopStep_exec_only _ _ H).
Qed.

(** C7, as the code has it.  The discovery call of the version resolver
    passes the directory and the exclusion patterns and no third
    argument, whatever the [recursive] option is; the main project file,
    from which the current version is read, is looked up among the files of
    that call.  The only other discovery call of a run is the one of the
    version-update step, which passes the [recursive] option. *)
Theorem resolver_discovery opts o st :
  run E (newApp opts) = (o, st) ->
  (discoveries (trace st) = [(dir opts, excludes opts, None)] \/
   discoveries (trace st) =
     [(dir opts, excludes opts, None);
      (dir opts, excludes opts, Some (recursive opts))]) /\
  (forall f, In (EvGetProjectVersion f) (trace st) ->
     find (fun file => String.eqb (category file) (main opts))
       (findProjectFiles E (dir opts) (excludes opts) None) = Some f).
Proof.
  intros Hrun.
  destruct (run_cases E _ _ _ Hrun)
    as [(st1 & st2 & Hprep & Hloop & -> & ->)|[Hprep Ho]].
  - destruct (prepare_discoveries E _ _ _ Hprep) as ([[_ Hno]|Hd] & Hmain);
      [now elim Hno|].
    destruct (runTasks_effect E (taskQueue st1) st1)
      as (st3 & Hloop' & [_ _ _ _ _ _ _ [evs [Ht Hevs]]] & _).
    rewrite Hloop in Hloop'; injection Hloop' as <-.
    cbn [trace set_taskStatus]; rewrite Ht; split.
    + right; rewrite !discoveries_app, Hd, (discoveries_loop _ _ Hevs).
      reflexivity.
    + intros f Hin.
      apply in_app_or in Hin as [Hin|[Hin|[]]]; [|discriminate Hin].
      apply in_app_or in Hin as [Hin|Hin]; [now apply Hmain|].
      rewrite Forall_forall in Hevs.
      exact (False_ind _ (loopStep_exec_only _ _ (Hevs _ Hin))).
  - destruct (prepare_discoveries E _ _ _ Hprep) as ([[Hd _]|Hd] & Hmain);
      (split; [auto|exact Hmain]).
Qed.

(** C8. Cancellation at the commit gate.  If the prompt of the commit gate
    is issued and the operator cancels it, the process exits with the
    code [Canceled]; the cancellation is the last step of the run: neither
    the tag prompt nor the push prompt is issued, the options of tag and
    push are as they were given, the queue holds the version-update task
    only, and no task is started. *)
Theorem commit_cancelled opts o st :
  run E (newApp opts) = (o, st) ->
  In (EvConfirm "should commit?") (trace st) ->
  confirm E "should commit?" = cancelSymbol ->
  o = Exit Canceled /\
  ~ In (EvConfirm "should create tag?") (trace st) /\
  ~ In (EvConfirm "should push to remote?") (trace st) /\
  tag (options st) = tag opts /\ push (options st) = push opts /\
  map name (taskQueue st) = ["upgradeVersion"] /\
  execNames (trace st) = [] /\
  exists tr, trace st = tr ++ [EvConfirm "should commit?"; EvCancel].
Proof.
  intros Hrun Hin Hcancel.
  destruct (run_cases E _ _ _ Hrun)
    as [(st1 & st2 & Hprep & Hloop & -> & ->)|[Hprep Ho]].
  - exfalso.
    destruct (runTasks_effect E (taskQueue st1) st1)
      as (st3 & Hloop' & [_ _ _ _ _ _ _ [evs [Ht Hevs]]] & _).
    rewrite Hloop in Hloop'; injection Hloop' as <-.
    cbn [trace set_taskStatus] in Hin; rewrite Ht in Hin.
    apply in_app_or in Hin as [Hin|[Hin|[]]]; [|discriminate Hin].
    apply in_app_or in Hin as [Hin|Hin].
    + destruct (prepare_commit_cancelled E _ _ _ Hprep Hin Hcancel) as [Ho _].
      discriminate Ho.
    + rewrite Forall_forall in Hevs.
      exact (loopStep_exec_only _ _ (Hevs _ Hin)).
  - destruct (prepare_commit_cancelled E _ _ _ Hprep Hin Hcancel)
      as (-> & Htag & Hpush & Hq & Hopt & Hlast).
    destruct (prepare_setup E _ _ _ Hprep) as (Hsetup & _).
    repeat (split; [first [assumption|reflexivity|now rewrite Hopt]|]).
    split; [|exact Hlast].
    apply (execNames_none setupStep); [intros n []|exact Hsetup].
Qed.

Lemma run_carries opts o st :
  run E (newApp opts) = (o, st) ->
  Forall (carries E opts (nextVersion st)) (trace st).
Proof.
  intros Hrun.
  destruct (run_cases E _ _ _ Hrun)
    as [(st1 & st2 & Hprep & Hloop & -> & ->)|[Hprep Ho]].
  - destruct (runTasks_effect E (taskQueue st1) st1)
      as (st3 & Hloop' & [_ Hn _ _ _ _ _ [evs [Ht Hevs]]] & _).
    rewrite Hloop in Hloop'; injection Hloop' as <-.
    destruct (prepare_setup E _ _ _ Hprep) as (Hsetup & _).
    cbn [trace nextVersion set_taskStatus]; rewrite Ht, Hn.
    apply Forall_app; split; [apply Forall_app; split|repeat constructor].
    + eapply Forall_impl; [|exact Hsetup].
      intros ev Hev; destruct ev; simpl in *; auto; contradiction.
    + eapply Forall_impl; [|exact Hevs].
      intros ev (t & Hin & [-> | Hev]); [exact I|].
      rewrite (prepare_queue E _ _ Hprep) in Hin.
      apply in_expectedQueue in Hin.
      destruct Hin as [-> | [-> | [-> | ->]]]; destruct ev; simpl in *;
        try contradiction; auto; intuition (subst; auto).
  - destruct (prepare_setup E _ _ _ Hprep) as (Hsetup & _).
    eapply Forall_impl; [|exact Hsetup].
    intros ev Hev; destruct ev; simpl in *; auto; contradiction.
Qed.

(** C9. The message of the tag.  Whenever a run calls [gitTag], the
    message it passes is the commit message template expanded with the
    next version, the tag name is [v] followed by the next version, and
    every call of [gitCommit] of the run passes the same message. *)
Theorem tag_message_is_commit_message opts o st a :
  run E (newApp opts) = (o, st) ->
  In (EvGitTag a) (trace st) ->
  tag_message a =
    formatMessageString (template (resolveAltOptions E opts stepCommit))
      (nextVersion st) /\
  tag_tagName a = ("v" ++ nextVersion st)%string /\
  forall c, In (EvGitCommit c) (trace st) ->
            commit_message c = tag_message a.
Proof.
  intros Hrun Hin.
  pose proof (run_carries _ _ _ Hrun) as Hall.
  rewrite Forall_forall in Hall.
  destruct (Hall _ Hin) as [Hm Hn].
  split; [exact Hm|split; [exact Hn|]].
  intros c Hc; rewrite Hm; exact (Hall _ Hc).
Qed.

Lemma chosen_version_used opts o st cv v :
  run E (newApp opts) = (o, st) ->
  In (EvChooseVersion cv) (trace st) ->
  chooseVersion E cv = answered v ->
  nextVersion st = v /\
  Forall (carries E opts v) (trace st) /\
  (o = Ret tt ->
   forall f,
     In f (findProjectFiles E (dir opts) (excludes opts)
             (Some (recursive opts))) ->
     In (EvUpgrade v f) (trace st)).
Proof.
  intros Hrun Hin Hanswer.
  pose proof (run_carries _ _ _ Hrun) as Hall.
  destruct (run_cases E _ _ _ Hrun)
    as [(st1 & st2 & Hprep & Hloop & -> & ->)|[Hprep Ho]].
  - destruct (loop_first_task E _ _ _ Hprep Hloop)
      as (st' & evs' & Hrest & Heff & Ht' & _).
    destruct (runTasks_effect E (tl (taskQueue st1)) st')
      as (st3 & Hrest' & [_ Hn' _ _ _ _ _ [evs2 [Ht2 _]]] & _).
    rewrite Hrest in Hrest'; injection Hrest' as <-.
    destruct (runTasks_effect E (taskQueue st1) st1)
      as (st3 & Hloop' & [_ Hn _ _ _ _ _ [evs [Ht Hevs]]] & _).
    rewrite Hloop in Hloop'; injection Hloop' as <-.
    cbn [trace nextVersion set_taskStatus] in *.
    assert (Hin1 : In (EvChooseVersion cv) (trace st1)).
    { rewrite Ht in Hin.
      apply in_app_or in Hin as [Hin|[Hin|[]]]; [|discriminate Hin].
      apply in_app_or in Hin as [Hin|Hin]; [exact Hin|].
      rewrite Forall_forall in Hevs.
      exact (False_ind _ (loopStep_exec_only _ _ (Hevs _ Hin))). }
    destruct (prepare_version E _ _ _ Hprep) as [Hchoose _].
    destruct (Hchoose _ Hin1) as [_ Hv].
    specialize (Hv _ Hanswer).
    rewrite Hn, Hv in *.
    split; [reflexivity|split; [exact Hall|]].
    intros _ f Hf; rewrite Ht2, Ht'.
    apply in_or_app; left; apply in_or_app; left; apply in_or_app; right.
    right; apply in_or_app; left.
    apply in_map_iff; now exists f.
  - destruct (prepare_version E _ _ _ Hprep) as [Hchoose _].
    destruct (Hchoose _ Hin) as [_ Hv].
    specialize (Hv _ Hanswer); rewrite Hv in *.
    split; [reflexivity|split; [exact Hall|]].
    intros Hret; now elim Ho.
Qed.

Lemma run_choose_reached opts o st f :
  run E (newApp opts) = (o, st) ->
  find (fun file => String.eqb (category file) (main opts))
    (findProjectFiles E (dir opts) (excludes opts) None) = Some f ->
  validVersion E (version opts) = None ->
  In (EvChooseVersion
        (match getProjectVersion E f with Some c => c | None => "" end))
    (trace st).
Proof.
  intros Hrun Hfind Hvalid.
  destruct (run_cases E _ _ _ Hrun)
    as [(st1 & st2 & Hprep & Hloop & -> & ->)|[Hprep Ho]].
  - destruct (runTasks_effect E (taskQueue st1) st1)
      as (st3 & Hloop' & [_ _ _ _ _ _ _ [evs [Ht _]]] & _).
    rewrite Hloop in Hloop'; injection Hloop' as <-.
    cbn [trace set_taskStatus]; rewrite Ht.
    apply in_or_app; left; apply in_or_app; left.
    exact (prepare_choose_reached E _ _ _ _ Hprep Hfind Hvalid).
  - exact (prepare_choose_reached E _ _ _ _ Hprep Hfind Hvalid).
Qed.

(** C10. The chosen version is not validated.  Whenever the explicit
    version is absent or not valid and the resolver finds the main project
    file, the version prompt is issued with the current version, and the
    string it answers, whatever it is, becomes the next version: it is the
    version of every file update, of the expanded commit message and of the
    tag name of the run, and in a run that reaches the loop every
    discovered file is updated with it. *)
Theorem chosen_version_unchecked opts o st f v :
  run E (newApp opts) = (o, st) ->
  validVersion E (version opts) = None ->
  find (fun file => String.eqb (category file) (main opts))
    (findProjectFiles E (dir opts) (excludes opts) None) = Some f ->
  chooseVersion E
    (match getProjectVersion E f with Some c => c | None => "" end) =
    answered v ->
  In (EvChooseVersion
        (match getProjectVersion E f with Some c => c | None => "" end))
    (trace st) /\
  nextVersion st = v /\
  Forall (carries E opts v) (trace st) /\
  (o = Ret tt ->
   forall g,
     In g (findProjectFiles E (dir opts) (excludes opts)
             (Some (recursive opts))) ->
     In (EvUpgrade v g) (trace st)).
Proof.
  intros Hrun Hvalid Hfind Hanswer.
  pose proof (run_choose_reached _ _ _ _ Hrun Hfind Hvalid) as Hin.
  split; [exact Hin|].
  exact (chosen_version_used _ _ _ _ _ Hrun Hin Hanswer).
Qed.

End Claims.

(** C6, as the code has it.  A template that contains the placeholder is
    a list of pieces, none of which contains the placeholder, with the
    placeholder between them.  For a version that is not empty, contains
    neither [$] nor the placeholder, does not begin with [s] and does not
    end with [%], [formatMessageString] yields the same pieces with the
    version between them, and no placeholder is left in the result. *)
Theorem formatMessageString_placeholders (t v : string) :
  includes "%s" t = true ->
  noDollar v = true ->
  v <> "" ->
  headIs "s" v = false ->
  lastIs "%" v = false ->
  includes "%s" v = false ->
  exists ps,
    t = joinWith "%s" ps /\
    Forall (fun p => includes "%s" p = false) ps /\
    formatMessageString t v = joinWith v ps /\
    includes "%s" (formatMessageString t v) = false.
Proof.
  intros Ht Hd Hne Hhead Hlast Hclean.
  exists (pieces t).
  split; [symmetry; apply pieces_join|].
  split; [apply pieces_clean|].
  unfold formatMessageString; rewrite Ht.
  unfold replaceAll; rewrite (replaceAll_scan_pieces v Hd).
  split; [reflexivity|].
  now apply joinWith_pieces_clean.
Qed.

(** * Further properties of the driver *)

Section Further.

Variable E : Collaborators.

Lemma setupStep_not_work ev : setupStep ev -> workStep ev -> ev = EvStatus running.
Proof. destruct ev; simpl; try contradiction; now intros ->. Qed.

Lemma loopStep_workStep queue ev : loopStep queue ev -> workStep ev.
Proof.
  intros H; pose proof (loopStep_exec_only _ _ H) as Hw.
  destruct ev; simpl in *; auto.
Qed.

(** A run is the part before the loop followed by the steps of the
    tasks; the tasks leave the versions, the options, the queue and the
    environment as the gates left them. *)
Lemma run_frame opts o st :
  run E (newApp opts) = (o, st) ->
  exists st1 work,
    prepare E (newApp opts) = (o, st1) /\
    trace st = trace st1 ++ work /\
    Forall workStep work /\
    ~ In (EvStatus running) work /\
    (o <> Ret tt -> work = [] /\ st = st1) /\
    nextVersion st = nextVersion st1 /\
    currentVersion st = currentVersion st1 /\
    options st = options st1 /\
    taskQueue st = taskQueue st1 /\
    envDRY st = envDRY st1.
Proof.
  intros Hrun.
  destruct (run_cases E _ _ _ Hrun)
    as [(st1 & st2 & Hprep & Hloop & -> & ->)|[Hprep Ho]].
  - destruct (runTasks_effect E (taskQueue st1) st1)
      as (st3 & Hloop' & [Hcv Hn Hopt Hq Hd _ _ [evs [Ht Hevs]]] & _).
    rewrite Hloop in Hloop'; injection Hloop' as <-.
    exists st1, (evs ++ [EvStatus finished]).
    split; [exact Hprep|].
    split; [cbn [trace set_taskStatus]; rewrite Ht; now rewrite app_assoc|].
    split.
    { apply Forall_app; split; [|repeat constructor].
      eapply Forall_impl; [apply loopStep_workStep|exact Hevs]. }
    split.
    { intros Hin; apply in_app_or in Hin as [Hin|[Hin|[]]];
        [|discriminate Hin].
      rewrite Forall_forall in Hevs.
      apply Hevs, loopStep_status in Hin; discriminate Hin. }
    split; [intros Ho; now elim Ho|].
    repeat split; assumption.
  - exists st, []; split; [exact Hprep|].
    split; [now rewrite app_nil_r|].
    split; [constructor|].
    split; [intros []|].
    repeat split; reflexivity.
Qed.

Lemma forallb_false_filter {A} (p : A -> bool) (l : list A) :
  forallb p l = false -> filter (fun x => negb (p x)) l <> [].
Proof.
  induction l as [|a l IH]; simpl; [discriminate|].
  destruct (p a); simpl; [exact IH|discriminate].
Qed.

(** The loop of a run that reaches it: the version update first, then,
    if no write failed, the optional tasks. *)
Lemma run_loop_shape opts st1 st2 :
  prepare E (newApp opts) = (Ret tt, st1) ->
  runTasks E (taskQueue st1) st1 = (Ret tt, st2) ->
  let v := nextVersion st1 in
  let files :=
    findProjectFiles E (dir opts) (excludes opts) (Some (recursive opts)) in
  let order := settleOrder E files in
  let alt := resolveAltOptions E opts stepCommit in
  let message := formatMessageString (template alt) v in
  exists evs,
    trace st2 =
      trace st1 ++ EvExec "upgradeVersion" :: map (EvUpgrade v) files ++
      map (fun _ => EvStatus failed)
        (filter (fun f => negb (upgradeProjectVersion E v f)) order) ++ evs /\
    modifiedFiles st2 = map path (written E v order) /\
    (forallb (upgradeProjectVersion E v) order = false ->
     evs = [] /\ taskStatus st2 = failed) /\
    (forallb (upgradeProjectVersion E v) order = true ->
     GitPhase E (truthy (commit (options st1))) (truthy (tag (options st1)))
       (truthy (push (options st1)))
       (mkCommitArgs (dry opts) message (map path order) (stageAll alt)
          (verify alt))
       (mkTagArgs (dry opts) message ("v" ++ v)%string)
       (mkPushArgs (dry opts)
          (followTags (resolveAltOptions E (options st1) stepPush)))
       evs).
Proof.
  intros Hprep Hloop v files order alt message.
  destruct (prepare_setup E _ _ _ Hprep) as (_ & _ & Hst & Hmf).
  rewrite (prepare_queue E _ _ Hprep) in Hloop; unfold expectedQueue in Hloop.
  fold v files alt message in Hloop.
  rewrite runTasks_running in Hloop by (rewrite Hst; discriminate).
  cbn [exec name] in Hloop.
  destruct (upgrade_exec E v (dir opts) files
              (set_trace (trace st1 ++ [EvExec "upgradeVersion"]) st1))
    as (st' & evs0 & Hrun & [_ _ Hopt _ _ _ _ _] & _ & _ & Hm & Hs).
  pose proof (upgrade_exec_trace E _ _ _ _ _ Hrun) as Ht.
  rewrite (bind_Ret _ _ _ _ _ Hrun) in Hloop.
  fold order in Ht, Hm, Hs.
  cbn [trace modifiedFiles taskStatus options set_trace] in Ht, Hm, Hs, Hopt.
  rewrite Hmf in Hm; cbn [app] in Hm; rewrite Hst in Hs.
  destruct (forallb (upgradeProjectVersion E v) order) eqn:Hall.
  - change (runTasks E
              (gatedQueue (truthy (commit (options st1)))
                 (truthy (tag (options st1))) (truthy (push (options st1)))
                 (execCommit (dry opts) message (stageAll alt) (verify alt))
                 (execTag (dry opts) message ("v" ++ v)%string)
                 (execPush (dry opts))) st' = (Ret tt, st2)) in Hloop.
    destruct (gated_loop E _ _ _ _ _ _ _ _ _ _ _ _ _ Hs Hloop)
      as (evs & Hevs & Hmod & _ & Hphase).
    exists evs; split.
    { rewrite Hevs, Ht, <- !app_assoc; reflexivity. }
    split; [now rewrite Hmod|].
    split; [discriminate|].
    intros _; revert Hphase; rewrite Hm, Hopt.
    unfold written; now rewrite (forallb_filter_id _ _ Hall).
  - rewrite (runTasks_failed E _ _ Hs) in Hloop; injection Hloop as <-.
    exists []; split; [rewrite Ht, <- !app_assoc; now rewrite app_nil_r|].
    split; [exact Hm|].
    split; [now split|discriminate].
Qed.

(** *** Projections of a trace *)

Lemma upgrades_app a b : upgrades (a ++ b) = upgrades a ++ upgrades b.
Proof. apply flat_map_app. Qed.

Lemma gitCalls_app a b : gitCalls (a ++ b) = gitCalls a ++ gitCalls b.
Proof. apply flat_map_app. Qed.

Lemma setup_projections tr :
  Forall setupStep tr ->
  execNames tr = [] /\ upgrades tr = [] /\ gitCalls tr = [].
Proof.
  induction 1 as [|ev tr Hev _ (IH1 & IH2 & IH3)]; [now repeat split|].
  destruct ev; simpl in *; try contradiction; now repeat split.
Qed.

Lemma upgrade_projections v files :
  execNames (map (EvUpgrade v) files) = [] /\
  upgrades (map (EvUpgrade v) files) = map (fun f => (v, f)) files /\
  gitCalls (map (EvUpgrade v) files) = [].
Proof.
  induction files as [|f fs (IH1 & IH2 & IH3)]; [now repeat split|].
  simpl; rewrite IH2; now repeat split.
Qed.

Lemma failed_projections {A} (l : list A) :
  execNames (map (fun _ => EvStatus failed) l) = [] /\
  upgrades (map (fun _ => EvStatus failed) l) = [] /\
  gitCalls (map (fun _ => EvStatus failed) l) = [].
Proof. induction l as [|a l IH]; [now repeat split|exact IH]. Qed.

Lemma gitCalls_nil_in tr ev :
  gitCalls tr = [] -> In ev tr ->
  match ev with
  | EvGitCommit _ | EvGitTag _ | EvGitPush _ => False
  | _ => True
  end.
Proof.
  induction tr as [|e tr IH]; intros Hg Hin; [destruct Hin|].
  destruct Hin as [->|Hin].
  - destruct ev; simpl in *; auto; discriminate Hg.
  - apply IH; [|exact Hin].
    destruct e; simpl in Hg; auto; discriminate Hg.
Qed.

(** The git commands of a run all belong to one stretch of its trace,
    which is empty unless the run reached the loop and no write failed. *)
Lemma run_git_phase opts o st :
  run E (newApp opts) = (o, st) ->
  let v := nextVersion st in
  let order :=
    settleOrder E
      (findProjectFiles E (dir opts) (excludes opts) (Some (recursive opts))) in
  let alt := resolveAltOptions E opts stepCommit in
  let message := formatMessageString (template alt) v in
  exists pre evs post,
    trace st = pre ++ evs ++ post /\
    gitCalls pre = [] /\ gitCalls post = [] /\
    (evs = [] \/
     o = Ret tt /\
     forallb (upgradeProjectVersion E v) order = true /\
     GitPhase E (truthy (commit (options st))) (truthy (tag (options st)))
       (truthy (push (options st)))
       (mkCommitArgs (dry opts) message (map path order) (stageAll alt)
          (verify alt))
       (mkTagArgs (dry opts) message ("v" ++ v)%string)
       (mkPushArgs (dry opts)
          (followTags (resolveAltOptions E (options st) stepPush)))
       evs).
Proof.
  intros Hrun v order alt message.
  destruct (run_frame _ _ _ Hrun)
    as (st0 & work & Hprep0 & _ & _ & _ & _ & Hn & _ & Hopt & _).
  destruct (run_cases E _ _ _ Hrun)
    as [(st1 & st2 & Hprep & Hloop & -> & ->)|[Hprep Ho]].
  - rewrite Hprep in Hprep0; injection Hprep0 as <-.
    destruct (run_loop_shape _ _ _ Hprep Hloop)
      as (evs & Ht & _ & Hbad & Hgood).
    destruct (prepare_setup E _ _ _ Hprep) as (Hsetup & _).
    destruct (setup_projections _ Hsetup) as (_ & _ & Hg1).
    set (files := findProjectFiles E (dir opts) (excludes opts)
                    (Some (recursive opts))) in *.
    set (fails := map (fun _ : ProjectFile => EvStatus failed)
                    (filter (fun f => negb (upgradeProjectVersion E
                                              (nextVersion st1) f))
                       (settleOrder E files))) in *.
    destruct (upgrade_projections (nextVersion st1) files) as (_ & _ & Hg2).
    assert (Hg3 : gitCalls fails = [])
      by (unfold fails; apply failed_projections).
    exists (trace st1 ++
            EvExec "upgradeVersion" ::
            map (EvUpgrade (nextVersion st1)) files ++ fails),
      evs, [EvStatus finished].
    split.
    { cbn [trace set_taskStatus]; rewrite Ht.
      rewrite <- !app_assoc; cbn [app].
      now rewrite <- !app_assoc. }
    split.
    { rewrite gitCalls_app, Hg1; cbn [app gitCalls flat_map].
      now rewrite gitCalls_app, Hg2, Hg3. }
    split; [reflexivity|].
    subst v order message; cbn [nextVersion options set_taskStatus] in *.
    fold files; rewrite !Hn, !Hopt.
    destruct (forallb (upgradeProjectVersion E (nextVersion st1))
                (settleOrder E files)) eqn:Hall.
    + right; split; [reflexivity|split; [reflexivity|]].
      now apply Hgood.
    + left; now apply Hbad.
  - exists (trace st), [], []; split; [now rewrite !app_nil_r|].
    destruct (prepare_setup E _ _ _ Hprep) as (Hsetup & _).
    destruct (setup_projections _ Hsetup) as (_ & _ & Hg1).
    split; [exact Hg1|split; [reflexivity|now left]].
Qed.

Lemma run_git_event opts o st ev :
  run E (newApp opts) = (o, st) ->
  In ev (trace st) ->
  match ev with
  | EvGitCommit _ | EvGitTag _ | EvGitPush _ =>
      exists pre evs post,
        trace st = pre ++ evs ++ post /\
        gitCalls pre = [] /\ gitCalls post = [] /\ In ev evs /\
        o = Ret tt /\
        forallb (upgradeProjectVersion E (nextVersion st))
          (settleOrder E
             (findProjectFiles E (dir opts) (excludes opts)
                (Some (recursive opts)))) = true /\
        GitPhase E (truthy (commit (options st))) (truthy (tag (options st)))
          (truthy (push (options st)))
          (mkCommitArgs (dry opts)
             (formatMessageString
                (template (resolveAltOptions E opts stepCommit))
                (nextVersion st))
             (map path
                (settleOrder E
                   (findProjectFiles E (dir opts) (excludes opts)
                      (Some (recursive opts)))))
             (stageAll (resolveAltOptions E opts stepCommit))
             (verify (resolveAltOptions E opts stepCommit)))
          (mkTagArgs (dry opts)
             (formatMessageString
                (template (resolveAltOptions E opts stepCommit))
                (nextVersion st))
             ("v" ++ nextVersion st)%string)
          (mkPushArgs (dry opts)
             (followTags (resolveAltOptions E (options st) stepPush)))
          evs
  | _ => True
  end.
Proof.
  intros Hrun Hin.
  destruct (run_git_phase _ _ _ Hrun)
    as (pre & evs & post & Ht & Hpre & Hpost & Hphase).
  assert (Hev : match ev with
                | EvGitCommit _ | EvGitTag _ | EvGitPush _ => In ev evs
                | _ => True
                end).
  { rewrite Ht in Hin.
    apply in_app_or in Hin as [Hin|Hin];
      [pose proof (gitCalls_nil_in _ _ Hpre Hin) as Hx|].
    - destruct ev; auto; contradiction.
    - apply in_app_or in Hin as [Hin|Hin]; [destruct ev; auto|].
      pose proof (gitCalls_nil_in _ _ Hpost Hin) as Hx.
      destruct ev; auto; contradiction. }
  destruct ev; auto;
    (destruct Hphase as [->|(Ho & Hall & Hphase)]; [contradiction|]);
    exists pre, evs, post;
    exact (conj Ht (conj Hpre (conj Hpost (conj Hev
             (conj Ho (conj Hall Hphase)))))).
Qed.

Lemma git_in_stretch pre evs post ev :
  gitCalls pre = [] -> gitCalls post = [] ->
  In ev (pre ++ evs ++ post) ->
  match ev with
  | EvGitCommit _ | EvGitTag _ | EvGitPush _ => In ev evs
  | _ => True
  end.
Proof.
  intros Hpre Hpost Hin.
  apply in_app_or in Hin as [Hin|Hin];
    [pose proof (gitCalls_nil_in _ _ Hpre Hin) as Hx;
     destruct ev; auto; contradiction|].
  apply in_app_or in Hin as [Hin|Hin]; [destruct ev; auto|].
  pose proof (gitCalls_nil_in _ _ Hpost Hin) as Hx.
  destruct ev; auto; contradiction.
Qed.

(** *** Setup failures and cancellation of the version prompt *)

(** X1. When the resolver's discovery finds no project file, [run] throws
    the error of [#getNextVersion] right after that call: no version is
    read, nothing is queued, and the status stays [running]. *)
Theorem no_project_files opts o st :
  run E (newApp opts) = (o, st) ->
  findProjectFiles E (dir opts) (excludes opts) None = [] ->
  o = Throw "can't found any project file in the project root" /\
  trace st =
    [EvStatus running; EvFindProjectFiles (dir opts) (excludes opts) None] /\
  taskQueue st = [] /\ nextVersion st = "" /\ taskStatus st = running.
Proof.
  intros Hrun Hnil.
  destruct (run_frame _ _ _ Hrun)
    as (st1 & work & Hprep & _ & _ & _ & Habort & _).
  destruct (prepare_no_files E _ _ _ Hprep Hnil) as (Ho & Ht & Hq & Hn & _).
  destruct (prepare_setup E _ _ _ Hprep) as (_ & _ & Hs & _).
  destruct Habort as [_ ->]; [rewrite Ho; discriminate|].
  repeat split; assumption.
Qed.

(** X2. When the resolver's discovery finds files but none of the main
    category, [run] throws the error that names that category, right after
    the discovery call: no version is read and nothing is queued. *)
Theorem main_project_file_missing opts o st :
  run E (newApp opts) = (o, st) ->
  findProjectFiles E (dir opts) (excludes opts) None <> [] ->
  find (fun file => String.eqb (category file) (main opts))
    (findProjectFiles E (dir opts) (excludes opts) None) = None ->
  o = Throw ("can't found " ++ main opts ++
             " project file in the project root")%string /\
  trace st =
    [EvStatus running; EvFindProjectFiles (dir opts) (excludes opts) None] /\
  taskQueue st = [] /\ nextVersion st = "" /\ taskStatus st = running.
Proof.
  intros Hrun Hne Hnone.
  destruct (run_frame _ _ _ Hrun)
    as (st1 & work & Hprep & _ & _ & _ & Habort & _).
  destruct (prepare_no_main E _ _ _ Hprep Hne Hnone)
    as (Ho & Ht & Hq & Hn & _).
  destruct (prepare_setup E _ _ _ Hprep) as (_ & _ & Hs & _).
  destruct Habort as [_ ->]; [rewrite Ho; discriminate|].
  repeat split; assumption.
Qed.

(** X3. [run] throws exactly when the resolver's discovery holds no file
    of the main category. *)
Theorem throws_iff_no_main_file opts o st :
  run E (newApp opts) = (o, st) ->
  ((exists e, o = Throw e) <->
   find (fun file => String.eqb (category file) (main opts))
     (findProjectFiles E (dir opts) (excludes opts) None) = None).
Proof.
  intros Hrun.
  destruct (run_frame _ _ _ Hrun) as (st1 & work & Hprep & _).
  exact (prepare_throw E _ _ _ Hprep).
Qed.

(** X4. A valid explicit version is taken as it is: when the main project
    file is found and the [version] option passes the validity check, the
    version prompt is never issued, the next version is the option, the
    current version is the one read from the main file (empty when the file
    has none), and the run does not throw. *)
Theorem explicit_version_skips_prompt opts o st f v :
  run E (newApp opts) = (o, st) ->
  find (fun file => String.eqb (category file) (main opts))
    (findProjectFiles E (dir opts) (excludes opts) None) = Some f ->
  version opts = Some v ->
  isVersionValid E v = true ->
  (forall cv, ~ In (EvChooseVersion cv) (trace st)) /\
  nextVersion st = v /\
  currentVersion st = currentOf E f /\
  (o = Ret tt \/ o = Exit Canceled).
Proof.
  intros Hrun Hfind Hver Hvalid.
  destruct (run_frame _ _ _ Hrun)
    as (st1 & work & Hprep & Ht & Hwork & _ & _ & Hn & Hcv & _).
  destruct (prepare_explicit E _ _ _ _ _ Hprep Hfind
              (validVersion_Some E _ _ Hver Hvalid))
    as (Hno & Hv & Hc & _ & Ho).
  split.
  { intros cv Hin; rewrite Ht in Hin.
    apply in_app_or in Hin as [Hin|Hin]; [exact (Hno _ Hin)|].
    rewrite Forall_forall in Hwork; exact (Hwork _ Hin). }
  split; [now rewrite Hn|split; [now rewrite Hcv|exact Ho]].
Qed.

(** X5. Cancelling the version prompt ends the run with the exit code
    [Canceled] before the second discovery: nothing is queued, no next
    version is set, and the prompt was seeded with the current version. *)
Theorem version_prompt_cancelled opts o st f :
  run E (newApp opts) = (o, st) ->
  find (fun file => String.eqb (category file) (main opts))
    (findProjectFiles E (dir opts) (excludes opts) None) = Some f ->
  validVersion E (version opts) = None ->
  chooseVersion E (currentOf E f) = cancelSymbol ->
  o = Exit Canceled /\
  trace st =
    [EvStatus running; EvFindProjectFiles (dir opts) (excludes opts) None;
     EvGetProjectVersion f; EvChooseVersion (currentOf E f); EvCancel] /\
  taskQueue st = [] /\ nextVersion st = "" /\
  currentVersion st = currentOf E f.
Proof.
  intros Hrun Hfind Hvalid Hcancel.
  destruct (run_frame _ _ _ Hrun)
    as (st1 & work & Hprep & _ & _ & _ & Habort & _).
  destruct (prepare_choose_cancelled E _ _ _ _ Hprep Hfind Hvalid Hcancel)
    as (Ho & Hrest).
  destruct Habort as [_ ->]; [rewrite Ho; discriminate|].
  split; assumption.
Qed.

(** *** The gates *)

(** X6. In batch-yes mode no confirmation prompt is ever issued, and a
    run that reaches the loop has the three options set to true and the
    four tasks queued. *)
Theorem batch_yes_never_prompts opts o st :
  run E (newApp opts) = (o, st) ->
  yes opts = true ->
  (forall m, ~ In (EvConfirm m) (trace st)) /\
  (o = Ret tt ->
   commit (options st) = Some true /\ tag (options st) = Some true /\
   push (options st) = Some true /\
   map name (taskQueue st) = ["upgradeVersion"; "commit"; "tag"; "push"]).
Proof.
  intros Hrun Hyes.
  destruct (run_frame _ _ _ Hrun)
    as (st1 & work & Hprep & Ht & Hwork & _ & _ & _ & _ & Hopt & Hq & _).
  destruct (prepare_yes E _ _ _ Hprep Hyes) as (Hno & Hall).
  split.
  - intros m Hin; rewrite Ht in Hin.
    apply in_app_or in Hin as [Hin|Hin]; [exact (Hno _ Hin)|].
    rewrite Forall_forall in Hwork; exact (Hwork _ Hin).
  - intros Ho; rewrite Hopt, Hq; exact (Hall Ho).
Qed.

(** X7. A gate that prompts and gets an answer stores the answer in the
    step's option, leaves the options of the other steps alone, queues the
    task exactly when the answer is yes, and returns: declining a step does
    not end the run. *)
Theorem gate_answer_decides n message e st b :
  truthy (getFlag n (options st)) = false ->
  confirm E message = answered b ->
  exists st',
    confirmAndSet E false n message e st = (Ret tt, st') /\
    getFlag n (options st') = Some b /\
    (forall n', n' <> n ->
                getFlag n' (options st') = getFlag n' (options st)) /\
    taskQueue st' =
      taskQueue st ++ (if b then [mkTask e (stepKey n)] else []) /\
    trace st' = trace st ++ [EvConfirm message].
Proof.
  intros Hflag Hanswer.
  unfold confirmAndSet, addTask, handleUserCancel, bind, get, modify, emit,
    ret.
  rewrite Hflag; cbn [negb]; rewrite Hanswer.
  cbn [options set_options set_trace].
  destruct n, b; cbn [getFlag setFlag commit tag push truthy];
    eexists; (split; [reflexivity|]);
    cbn [options taskQueue trace set_taskQueue set_options set_trace
         getFlag commit tag push];
    (split; [reflexivity|]);
    (split; [intros n' Hn'; destruct n'; try reflexivity; now elim Hn'|]);
    (split; [first [reflexivity|now rewrite app_nil_r]|reflexivity]).
Qed.

(** X8. [#addTask] always reports success, and puts the task at the end
    of the queue. *)
Theorem addTask_appends task st :
  addTask task st = (Ret true, set_taskQueue (taskQueue st ++ [task]) st).
Proof.
  unfold addTask, bind, get, modify, ret.
  cbn [taskQueue set_taskQueue].
  rewrite length_app; cbn [List.length]; now rewrite Nat.eqb_refl.
Qed.

(** *** The run as a whole *)

(** X9. Every discovery call, version read and prompt of a run happens
    before the first task starts: the trace is a stretch of setup steps
    followed by a stretch of task steps. *)
Theorem prompts_precede_tasks opts o st :
  run E (newApp opts) = (o, st) ->
  exists setup work,
    trace st = setup ++ work /\
    Forall setupStep setup /\ Forall workStep work /\
    ~ In (EvStatus running) work.
Proof.
  intros Hrun.
  destruct (run_frame _ _ _ Hrun)
    as (st1 & work & Hprep & Ht & Hwork & Hrun' & _).
  destruct (prepare_setup E _ _ _ Hprep) as (Hsetup & _).
  exists (trace st1), work; repeat split; assumption.
Qed.

(** X10. A run that does not complete has done nothing: it either exited
    with [Canceled] or threw, and it started no task, updated no file and
    called no git command. *)
Theorem aborted_run_does_nothing opts o st :
  run E (newApp opts) = (o, st) ->
  o <> Ret tt ->
  (o = Exit Canceled \/ exists e, o = Throw e) /\
  execNames (trace st) = [] /\ upgrades (trace st) = [] /\
  gitCalls (trace st) = [] /\
  modifiedFiles st = [] /\ taskStatus st = running.
Proof.
  intros Hrun Ho.
  destruct (run_frame _ _ _ Hrun)
    as (st1 & work & Hprep & _ & _ & _ & Habort & _).
  destruct (Habort Ho) as [_ ->].
  destruct (prepare_setup E _ _ _ Hprep) as (Hsetup & _ & Hs & Hm).
  destruct (setup_projections _ Hsetup) as (H1 & H2 & H3).
  destruct (prepare_exit E _ _ _ Hprep) as (_ & _ & _ & [Hr|Hx]);
    [now elim Ho|].
  repeat split; assumption.
Qed.

(** X11. The run exits with [Canceled] exactly when a prompt was
    cancelled, and the cancellation is then the last step of the run. *)
Theorem exit_iff_cancelled opts o st :
  run E (newApp opts) = (o, st) ->
  (o = Exit Canceled <-> In EvCancel (trace st)) /\
  (o = Exit Canceled -> exists tr, trace st = tr ++ [EvCancel]).
Proof.
  intros Hrun.
  destruct (run_frame _ _ _ Hrun)
    as (st1 & work & Hprep & Ht & Hwork & _ & Habort & _).
  destruct (prepare_exit E _ _ _ Hprep) as (_ & Hiff & Hlast & _).
  split.
  - rewrite Ht, in_app_iff, <- Hiff; split; [auto|].
    intros [Hx|Hx]; [exact Hx|].
    rewrite Forall_forall in Hwork; exact (False_ind _ (Hwork _ Hx)).
  - intros Ho; destruct (Habort ltac:(rewrite Ho; discriminate)) as [_ ->].
    exact (Hlast Ho).
Qed.

(** X12. Dry-run reaches everything: after any run the environment
    variable [DRY] is set exactly when the [dry] option is, and every git
    command of the run was called with the [dry] option as its [dry]
    argument. *)
Theorem dry_run_reaches_git opts o st :
  run E (newApp opts) = (o, st) ->
  envDRY st = dry opts /\ Forall (dryIs (dry opts)) (trace st).
Proof.
  intros Hrun.
  destruct (run_frame _ _ _ Hrun)
    as (st1 & work & Hprep & _ & _ & _ & _ & _ & _ & _ & _ & Henv).
  destruct (prepare_exit E _ _ _ Hprep) as (Hdry & _).
  split; [now rewrite Henv|].
  apply Forall_forall; intros ev Hin.
  pose proof (run_git_event _ _ _ _ Hrun Hin) as Hev.
  destruct ev; simpl; auto;
    destruct Hev as (pre & evs & post & _ & _ & _ & Hev & _ & _ & Hphase);
    destruct Hphase as (Hc & Htg & Hp & _).
  - now destruct (Hc _ Hev) as [-> _].
  - now destruct (Htg _ Hev) as [-> _].
  - now destruct (Hp _ Hev) as [-> _].
Qed.

(** *** The optional steps *)

(** X13. The commit stages what was written.  Whenever a run calls
    [gitCommit], every write of the version update has succeeded, and the
    [modifiedFiles] argument is the list of the paths of all discovered
    files, in the order in which their writes settled; [stageAll] and
    [verify] are the ones resolved from the options before the gates. *)
Theorem commit_stages_written_files opts o st a :
  run E (newApp opts) = (o, st) ->
  In (EvGitCommit a) (trace st) ->
  let order :=
    settleOrder E
      (findProjectFiles E (dir opts) (excludes opts) (Some (recursive opts))) in
  forallb (upgradeProjectVersion E (nextVersion st)) order = true /\
  commit_modifiedFiles a = map path order /\
  modifiedFiles st = map path order /\
  commit_stageAll a = stageAll (resolveAltOptions E opts stepCommit) /\
  commit_verify a = verify (resolveAltOptions E opts stepCommit) /\
  truthy (commit (options st)) = true.
Proof.
  intros Hrun Hin order.
  destruct (run_git_event _ _ _ _ Hrun Hin)
    as (pre & evs & post & _ & _ & _ & Hev & Ho & Hall & Hc & _).
  destruct (Hc _ Hev) as (-> & Hfc & _).
  split; [exact Hall|split; [reflexivity|]].
  split; [|now repeat split].
  subst o; destruct (run_cases E _ _ _ Hrun)
    as [(st1 & st2 & Hprep & Hloop & _ & ->)|[_ Hx]]; [|now elim Hx].
  destruct (run_loop_shape _ _ _ Hprep Hloop) as (evs' & _ & Hm & _).
  destruct (runTasks_effect E (taskQueue st1) st1)
    as (st3 & Hloop' & [_ Hn _ _ _ _ _ _] & _).
  rewrite Hloop in Hloop'; injection Hloop' as <-.
  cbn [modifiedFiles nextVersion set_taskStatus] in *.
  rewrite Hm; unfold written, order.
  rewrite <- Hn; now rewrite (forallb_filter_id _ _ Hall).
Qed.

(** X14. A failed git command stops the later steps: if [gitCommit]
    reports failure, neither [gitTag] nor [gitPush] is called in the run,
    and if [gitTag] reports failure, [gitPush] is not called. *)
Theorem git_failure_stops_later_steps opts o st :
  run E (newApp opts) = (o, st) ->
  (forall a, In (EvGitCommit a) (trace st) -> gitCommit E a = false ->
     (forall x, ~ In (EvGitTag x) (trace st)) /\
     (forall x, ~ In (EvGitPush x) (trace st))) /\
  (forall a, In (EvGitTag a) (trace st) -> gitTag E a = false ->
     forall x, ~ In (EvGitPush x) (trace st)).
Proof.
  intros Hrun; split; intros a Hin Hfail;
    destruct (run_git_event _ _ _ _ Hrun Hin)
      as (pre & evs & post & Ht & Hpre & Hpost & Hev & _ & _ & Hc & Htg & _).
  - destruct (Hc _ Hev) as (_ & _ & Hstop).
    destruct (Hstop Hfail) as [Hnt Hnp].
    split; intros x Hx; rewrite Ht in Hx;
      apply (git_in_stretch _ _ _ _ Hpre Hpost) in Hx;
      [exact (Hnt _ Hx)|exact (Hnp _ Hx)].
  - destruct (Htg _ Hev) as (_ & _ & Hstop).
    intros x Hx; rewrite Ht in Hx.
    apply (git_in_stretch _ _ _ _ Hpre Hpost) in Hx.
    exact (Hstop Hfail _ Hx).
Qed.

(** X15. The push reads the options as the gates left them: the
    [followTags] argument of every [gitPush] call is the one resolved, when
    the task runs, from the options after the gates, in which [push] is
    true. *)
Theorem push_options_after_gates opts o st a :
  run E (newApp opts) = (o, st) ->
  In (EvGitPush a) (trace st) ->
  push_followTags a = followTags (resolveAltOptions E (options st) stepPush) /\
  truthy (push (options st)) = true.
Proof.
  intros Hrun Hin.
  destruct (run_git_event _ _ _ _ Hrun Hin)
    as (pre & evs & post & _ & _ & _ & Hev & _ & _ & _ & _ & Hp & _).
  destruct (Hp _ Hev) as [-> Hfp]; now split.
Qed.

(** X16. The git commands of a run are called in the order commit, tag,
    push, each at most once and only for the steps whose option is true
    after the gates; the calls stop at the first failure. *)
Theorem git_calls_follow_gate_order opts o st :
  run E (newApp opts) = (o, st) ->
  exists k, gitCalls (trace st) = firstn k (enabledSteps (options st)).
Proof.
  intros Hrun.
  destruct (run_git_phase _ _ _ Hrun)
    as (pre & evs & post & Ht & Hpre & Hpost & Hphase).
  rewrite Ht, !gitCalls_app, Hpre, Hpost, app_nil_r; cbn [app].
  destruct Hphase as [->|(_ & _ & _ & _ & _ & _ & [k Hk] & _)].
  - now exists 0.
  - exists k; now rewrite enabledSteps_stepsOf.
Qed.

(** X17. A run without failure executes its whole queue: if a completed
    run never assigned [failed], the tasks it started are exactly the
    tasks of the queue, in order. *)
Theorem clean_run_executes_queue opts st :
  run E (newApp opts) = (Ret tt, st) ->
  ~ In (EvStatus failed) (trace st) ->
  execNames (trace st) = map name (taskQueue st).
Proof.
  intros Hrun Hclean.
  destruct (run_cases E _ _ _ Hrun)
    as [(st1 & st2 & Hprep & Hloop & _ & ->)|[_ Hx]]; [|now elim Hx].
  destruct (run_loop_shape _ _ _ Hprep Hloop)
    as (evs & Ht & _ & _ & Hgood).
  destruct (runTasks_effect E (taskQueue st1) st1)
    as (st3 & Hloop' & [_ _ _ Hq _ _ _ _] & _).
  rewrite Hloop in Hloop'; injection Hloop' as <-.
  destruct (prepare_setup E _ _ _ Hprep) as (Hsetup & _).
  destruct (setup_projections _ Hsetup) as (He1 & _).
  cbn [trace taskQueue set_taskStatus] in *.
  set (v := nextVersion st1) in *.
  set (files := findProjectFiles E (dir opts) (excludes opts)
                  (Some (recursive opts))) in *.
  set (bad := filter (fun f => negb (upgradeProjectVersion E v f))
                (settleOrder E files)) in *.
  assert (Hall : forallb (upgradeProjectVersion E v) (settleOrder E files)
                 = true).
  { destruct (forallb _ (settleOrder E files)) eqn:Hall; [reflexivity|].
    exfalso; apply forallb_false_filter in Hall; fold bad in Hall.
    apply Hclean; rewrite Ht.
    apply in_or_app; left; apply in_or_app; right; right.
    apply in_or_app; right; apply in_or_app; left.
    destruct bad; [now elim Hall|now left]. }
  destruct (Hgood Hall) as (_ & _ & _ & Hnames & _).
  assert (Hevs : ~ In (EvStatus failed) evs).
  { intros Hin; apply Hclean; rewrite Ht.
    apply in_or_app; left; apply in_or_app; right; right.
    apply in_or_app; right; apply in_or_app; right; exact Hin. }
  rewrite Ht, Hq, (prepare_queue E _ _ Hprep).
  rewrite !execNames_app, He1; cbn [app execNames flat_map].
  rewrite !execNames_app, (Hnames Hevs).
  destruct (upgrade_projections v files) as (-> & _).
  destruct (failed_projections bad) as (-> & _).
  unfold expectedQueue, stepsOf; cbn [map name app].
  now destruct (truthy (commit (options st1))), (truthy (tag (options st1))),
    (truthy (push (options st1))).
Qed.

(** X18. In a run that reaches the loop, [upgradeProjectVersion] is called
    exactly once for every discovered file, in the order of discovery, with
    the next version, also when some of the writes fail. *)
Theorem every_file_attempted_once opts st :
  run E (newApp opts) = (Ret tt, st) ->
  upgrades (trace st) =
  map (fun f => (nextVersion st, f))
    (findProjectFiles E (dir opts) (excludes opts) (Some (recursive opts))).
Proof.
  intros Hrun.
  destruct (run_cases E _ _ _ Hrun)
    as [(st1 & st2 & Hprep & Hloop & _ & ->)|[_ Hx]]; [|now elim Hx].
  destruct (run_loop_shape _ _ _ Hprep Hloop)
    as (evs & Ht & _ & Hbad & Hgood).
  destruct (runTasks_effect E (taskQueue st1) st1)
    as (st3 & Hloop' & [_ Hn _ _ _ _ _ _] & _).
  rewrite Hloop in Hloop'; injection Hloop' as <-.
  destruct (prepare_setup E _ _ _ Hprep) as (Hsetup & _).
  destruct (setup_projections _ Hsetup) as (_ & Hu1 & _).
  cbn [trace nextVersion set_taskStatus] in *.
  set (v := nextVersion st1) in *.
  set (files := findProjectFiles E (dir opts) (excludes opts)
                  (Some (recursive opts))) in *.
  set (bad := filter (fun f => negb (upgradeProjectVersion E v f))
                (settleOrder E files)) in *.
  assert (Hevs : upgrades evs = []).
  { destruct (forallb (upgradeProjectVersion E v) (settleOrder E files)).
    - now destruct (Hgood eq_refl) as (_ & _ & _ & _ & _ & ->).
    - now destruct (Hbad eq_refl) as [-> _]. }
  rewrite Ht, Hn, !upgrades_app, Hu1; cbn [app upgrades flat_map].
  rewrite !upgrades_app, Hevs.
  destruct (upgrade_projections v files) as (_ & -> & _).
  destruct (failed_projections bad) as (_ & -> & _).
  now rewrite !app_nil_r.
Qed.

(** X20. At the end of a completed run [modifiedFiles] holds exactly the
    paths of the discovered files whose write succeeded, in the order in
    which the writes settled: the optional tasks read the list and never
    change it. *)
Theorem modified_files_after_run opts st :
  run E (newApp opts) = (Ret tt, st) ->
  modifiedFiles st =
  map path
    (written E (nextVersion st)
       (settleOrder E
          (findProjectFiles E (dir opts) (excludes opts)
             (Some (recursive opts))))).
Proof.
  intros Hrun.
  destruct (run_cases E _ _ _ Hrun)
    as [(st1 & st2 & Hprep & Hloop & _ & ->)|[_ Hx]]; [|now elim Hx].
  destruct (run_loop_shape _ _ _ Hprep Hloop) as (evs & _ & Hm & _).
  destruct (runTasks_effect E (taskQueue st1) st1)
    as (st3 & Hloop' & [_ Hn _ _ _ _ _ _] & _).
  rewrite Hloop in Hloop'; injection Hloop' as <-.
  cbn [modifiedFiles nextVersion set_taskStatus].
  now rewrite Hm, Hn.
Qed.

End Further.

(** *** The message mentions the version *)

Lemma includes_unfold v s :
  includes v s =
  startsWith v s ||
  match s with EmptyString => false | String _ s' => includes v s' end.
Proof. destruct s; reflexivity. Qed.

Lemma startsWith_append v b : startsWith v (v ++ b)%string = true.
Proof.
  induction v as [|c v IH]; [reflexivity|].
  cbn [startsWith append]; now rewrite Ascii.eqb_refl, IH.
Qed.

Lemma includes_append_self v b : includes v (v ++ b)%string = true.
Proof. now rewrite includes_unfold, startsWith_append. Qed.

Lemma includes_append_right v a b :
  includes v b = true -> includes v (a ++ b)%string = true.
Proof.
  intros Hb; induction a as [|c a IH]; [exact Hb|].
  cbn [append]; rewrite includes_unfold, IH; apply orb_true_r.
Qed.

Lemma append_empty_r s : (s ++ "")%string = s.
Proof. induction s as [|c s IH]; [reflexivity|]; cbn [append]; now rewrite IH. Qed.

Lemma pieces_two t :
  includes "%s" t = true -> exists p q ps, pieces t = p :: q :: ps.
Proof.
  induction t as [|r IH|c s Hc IH] using template_ind; intros H.
  - discriminate H.
  - rewrite pieces_placeholder.
    destruct (pieces r) as [|q ps] eqn:Hp; [now apply pieces_not_nil in Hp|].
    now exists "", q, ps.
  - rewrite includes_placeholder_cons, Hc in H; cbn [orb] in H.
    destruct (IH H) as (p & q & ps & Hs).
    destruct (pieces_char c s Hc) as (p' & ps' & Hs' & ->).
    rewrite Hs in Hs'; injection Hs' as <- <-.
    now exists (String c p), q, ps.
Qed.

(** X19. The message mentions the version: for a version without [$],
    the result of [formatMessageString] contains the version, whether or
    not the template has a placeholder. *)
Theorem formatMessageString_mentions_version (t v : string) :
  noDollar v = true ->
  includes v (formatMessageString t v) = true.
Proof.
  intros Hd; unfold formatMessageString.
  destruct (includes "%s" t) eqn:Ht.
  - unfold replaceAll; rewrite (replaceAll_scan_pieces v Hd).
    destruct (pieces_two t Ht) as (p & q & ps & ->).
    cbn [joinWith].
    apply includes_append_right, includes_append_self.
  - apply includes_append_right.
    rewrite <- (append_empty_r v) at 2; apply includes_append_self.
Qed.

(** * Concrete runs *)

Import Sample.

(** With all three steps authorized by batch-yes and the write of one file
    failing, only the version update runs. *)
Lemma fail_fast_witness :
  runTasks cargoFails
    ([mkTask (execUpgrade "2.1.0" "." [pkg; cargo]) "upgradeVersion"] ++
     [mkTask (execPush false) "push"])
    (set_taskStatus running (newApp batchYes)) =
  runTasks cargoFails
    [mkTask (execUpgrade "2.1.0" "." [pkg; cargo]) "upgradeVersion"]
    (set_taskStatus running (newApp batchYes)) /\
  Forall onlyVersionUpdate (trace (snd (run cargoFails (newApp batchYes)))).
Proof.
  split.
  - rewrite (proj1 (fail_fast cargoFails)
               [mkTask (execUpgrade "2.1.0" "." [pkg; cargo]) "upgradeVersion"]
               [mkTask (execPush false) "push"]
               (set_taskStatus running (newApp batchYes))
               (snd (runTasks cargoFails
                       [mkTask (execUpgrade "2.1.0" "." [pkg; cargo])
                          "upgradeVersion"]
                       (set_taskStatus running (newApp batchYes))))).
    + vm_compute; reflexivity.
    + vm_compute; reflexivity.
    + vm_compute; reflexivity.
  - apply (proj2 (fail_fast cargoFails) batchYes
             (fst (run cargoFails (newApp batchYes))) _ cargo).
    + vm_compute; reflexivity.
    + simpl; apply Permutation_sym, Permutation_rev.
    + simpl; auto.
    + vm_compute; reflexivity.
Defined.

(** C2 as stated fails: the status of this run becomes [failed] in the
    loop, and is [finished] when [run] completes. *)
Lemma failed_is_overwritten :
  taskStatus (snd (runToLoopEnd cargoFails (newApp batchYes))) = failed /\
  fst (run cargoFails (newApp batchYes)) = Ret tt /\
  taskStatus (snd (run cargoFails (newApp batchYes))) = finished /\
  statusWrites (trace (snd (run cargoFails (newApp batchYes)))) =
    [running; failed; finished].
Proof. vm_compute; repeat split; reflexivity. Qed.

Lemma status_history_witness :
  statusWrites (trace (snd (run cargoFails (newApp batchYes)))) =
    [running; failed; finished] /\
  ((fst (run cargoFails (newApp batchYes)) = Ret tt /\
    taskStatus (snd (run cargoFails (newApp batchYes))) = finished /\
    exists n,
      statusWrites (trace (snd (run cargoFails (newApp batchYes)))) =
      running :: repeat failed n ++ [finished])
   \/
   (fst (run cargoFails (newApp batchYes)) <> Ret tt /\
    taskStatus (snd (run cargoFails (newApp batchYes))) = running /\
    statusWrites (trace (snd (run cargoFails (newApp batchYes)))) =
      [running])).
Proof.
  split; [vm_compute; reflexivity|].
  apply (status_history cargoFails batchYes); vm_compute; reflexivity.
Defined.


Lemma partial_failure_witness :
  exists st' evs,
    runExec cargoFails (execUpgrade "2.1.0" "." [pkg; cargo; pom])
      (set_taskStatus running (newApp batchYes)) = (Ret tt, st') /\
    trace st' =
      trace (set_taskStatus running (newApp batchYes)) ++
      map (EvUpgrade "2.1.0") [pkg; cargo; pom] ++ evs /\
    Forall (fun ev => ev = EvStatus failed) evs /\
    Permutation (modifiedFiles st') ([] ++ ["package.json"; "sub/pom.xml"]) /\
    (taskStatus st' = failed <->
     exists f, In f [pkg; cargo; pom] /\
               upgradeProjectVersion cargoFails "2.1.0" f = false) /\
    (taskStatus st' = running <->
     forall f, In f [pkg; cargo; pom] ->
               upgradeProjectVersion cargoFails "2.1.0" f = true).
Proof.
  apply (partial_failure cargoFails "2.1.0" "." [pkg; cargo; pom]
           (set_taskStatus running (newApp batchYes))).
  - simpl; apply Permutation_sym, (Permutation_rev [pkg; cargo; pom]).
  - reflexivity.
Defined.

(** C5 as stated fails: [commit] was explicitly set to false and
    batch-yes is off; the commit prompt is issued all the same, and its
    answer, not the option, decides: the commit runs. *)
Lemma explicit_false_is_prompted :
  yes commitOff = false /\ commit commitOff = Some false /\
  In (EvConfirm "should commit?")
    (trace (snd (run allFine (newApp commitOff)))) /\
  In "commit" (execNames (trace (snd (run allFine (newApp commitOff))))).
Proof. vm_compute; repeat split; auto 20. Qed.

Lemma gate_without_prompt_witness :
  confirmAndSet allFine false stepPush "should push to remote?"
    (execPush false) (newApp (opts None false None None (Some true))) =
  (Ret tt,
   set_taskQueue [mkTask (execPush false) "push"]
     (newApp (opts None false None None (Some true)))) /\
  (exists o st' evs,
     confirmAndSet allFine false stepCommit "should commit?"
       (execPush false) (newApp commitOff) = (o, st') /\
     trace st' = trace (newApp commitOff) ++ EvConfirm "should commit?" :: evs)
  /\
  (exists st',
     confirmAndSet allFine false stepCommit "should commit?"
       (execPush false) (newApp commitOff) = (Ret tt, st') /\
     commit (options st') = Some true /\
     map name (taskQueue st') = ["commit"]) /\
  (exists st',
     confirmAndSet cancels false stepCommit "should commit?"
       (execPush false) (newApp commitOff) = (Exit Canceled, st') /\
     commit (options st') = Some false /\ taskQueue st' = []).
Proof.
  split.
  - apply (proj1 (gate_without_prompt allFine stepPush
                    "should push to remote?" (execPush false)
                    (newApp (opts None false None None (Some true))))).
    reflexivity.
  - destruct (proj2 (gate_without_prompt allFine stepCommit "should commit?"
                       (execPush false) (newApp commitOff)) eq_refl)
      as (Hprompt & Hanswer & _).
    destruct (proj2 (gate_without_prompt cancels stepCommit "should commit?"
                       (execPush false) (newApp commitOff)) eq_refl)
      as (_ & _ & Hcancel).
    split; [exact Hprompt|split].
    + destruct (Hanswer true eq_refl) as (st' & Hrun & _ & Hflag & _ & Hq).
      exists st'; split; [exact Hrun|split; [exact Hflag|]].
      now rewrite Hq.
    + destruct (Hcancel eq_refl) as (st' & Hrun & _ & Hopt & Hq).
      exists st'; split; [exact Hrun|split; [now rewrite Hopt|exact Hq]].
Defined.

(** C7 as stated fails: recursion is requested, and the resolver's
    discovery call is made without the recursive argument; the main
    project file, which the recursive discovery finds, is reported
    missing. *)
Lemma resolver_ignores_recursive :
  recursive optsJava = true /\
  hd_error (discoveries (trace (snd (run allFine (newApp optsJava))))) =
    Some (".", [], None) /\
  fst (run allFine (newApp optsJava)) =
    Throw "can't found java project file in the project root" /\
  find (fun file => String.eqb (category file) (main optsJava))
    (findProjectFiles allFine "." [] (Some (recursive optsJava))) = Some pom.
Proof. vm_compute; repeat split; reflexivity. Qed.

Lemma resolver_discovery_witness :
  discoveries (trace (snd (run allFine (newApp batchYes)))) =
    [(".", [], None); (".", [], Some true)] /\
  forall f,
    In (EvGetProjectVersion f) (trace (snd (run allFine (newApp batchYes)))) ->
    find (fun file => String.eqb (category file) "javascript")
      (findProjectFiles allFine "." [] None) = Some f.
Proof.
  split; [vm_compute; reflexivity|].
  apply (resolver_discovery allFine batchYes
           (fst (run allFine (newApp batchYes)))
           (snd (run allFine (newApp batchYes)))).
  vm_compute; reflexivity.
Defined.

Lemma commit_cancelled_witness :
  fst (run cancels (newApp interactive)) = Exit Canceled /\
  ~ In (EvConfirm "should create tag?")
      (trace (snd (run cancels (newApp interactive)))) /\
  ~ In (EvConfirm "should push to remote?")
      (trace (snd (run cancels (newApp interactive)))) /\
  tag (options (snd (run cancels (newApp interactive)))) = tag interactive /\
  push (options (snd (run cancels (newApp interactive)))) = push interactive /\
  map name (taskQueue (snd (run cancels (newApp interactive)))) =
    ["upgradeVersion"] /\
  execNames (trace (snd (run cancels (newApp interactive)))) = [] /\
  exists tr,
    trace (snd (run cancels (newApp interactive))) =
    tr ++ [EvConfirm "should commit?"; EvCancel].
Proof.
  apply (commit_cancelled cancels interactive).
  - vm_compute; reflexivity.
  - vm_compute; auto 10.
  - reflexivity.
Defined.

Lemma tag_message_witness :
  In (EvGitTag (mkTagArgs false "chore: release v2.1.0" "v2.1.0"))
    (trace (snd (run allFine (newApp batchYes)))) /\
  tag_message (mkTagArgs false "chore: release v2.1.0" "v2.1.0") =
    formatMessageString
      (template (resolveAltOptions allFine batchYes stepCommit))
      (nextVersion (snd (run allFine (newApp batchYes)))) /\
  tag_tagName (mkTagArgs false "chore: release v2.1.0" "v2.1.0") =
    ("v" ++ nextVersion (snd (run allFine (newApp batchYes))))%string /\
  forall c,
    In (EvGitCommit c) (trace (snd (run allFine (newApp batchYes)))) ->
    commit_message c =
    tag_message (mkTagArgs false "chore: release v2.1.0" "v2.1.0").
Proof.
  assert (Hin : In (EvGitTag (mkTagArgs false "chore: release v2.1.0" "v2.1.0"))
                  (trace (snd (run allFine (newApp batchYes)))))
    by (vm_compute; auto 20).
  split; [exact Hin|].
  apply (tag_message_is_commit_message allFine batchYes
           (fst (run allFine (newApp batchYes)))
           (snd (run allFine (newApp batchYes)))).
  - vm_compute; reflexivity.
  - exact Hin.
Defined.

(** The version the prompt answers here is one the validity check
    rejects; it is the version of the run all the same. *)
Lemma chosen_version_witness :
  isVersionValid allFine "1.0.1-custom" = false /\
  In (EvGitTag (mkTagArgs false "chore: release v1.0.1-custom" "v1.0.1-custom"))
    (trace (snd (run allFine (newApp interactive)))) /\
  In (EvChooseVersion "1.0.0")
    (trace (snd (run allFine (newApp interactive)))) /\
  nextVersion (snd (run allFine (newApp interactive))) = "1.0.1-custom" /\
  Forall (carries allFine interactive "1.0.1-custom")
    (trace (snd (run allFine (newApp interactive)))) /\
  (fst (run allFine (newApp interactive)) = Ret tt ->
   forall g,
     In g (findProjectFiles allFine (dir interactive) (excludes interactive)
             (Some (recursive interactive))) ->
     In (EvUpgrade "1.0.1-custom" g)
       (trace (snd (run allFine (newApp interactive))))).
Proof.
  split; [reflexivity|].
  split; [vm_compute; auto 20|].
  apply (chosen_version_unchecked allFine interactive
           (fst (run allFine (newApp interactive)))
           (snd (run allFine (newApp interactive))) pkg "1.0.1-custom").
  - vm_compute; reflexivity.
  - reflexivity.
  - reflexivity.
  - reflexivity.
Defined.

(** C6 as stated fails: a version that contains the placeholder leaves it
    in the result, and a version that contains [$&] is not what is put in
    the place of the placeholder. *)
Lemma formatMessageString_placeholder_left :
  (includes "%s" "%s" = true /\
   includes "%s" (formatMessageString "%s" "%s") = true) /\
  (includes "%s" "release %s" = true /\
   formatMessageString "release %s" "$&" = "release %s" /\
   joinWith "$&" (pieces "release %s") = "release $&").
Proof. vm_compute; repeat split; reflexivity. Qed.

Lemma formatMessageString_placeholders_witness :
  formatMessageString "release %s (%s)" "2.1.0" = "release 2.1.0 (2.1.0)" /\
  exists ps,
    "release %s (%s)" = joinWith "%s" ps /\
    Forall (fun p => includes "%s" p = false) ps /\
    formatMessageString "release %s (%s)" "2.1.0" = joinWith "2.1.0" ps /\
    includes "%s" (formatMessageString "release %s (%s)" "2.1.0") = false.
Proof.
  split; [reflexivity|].
  apply (formatMessageString_placeholders "release %s (%s)" "2.1.0").
  - reflexivity.
  - reflexivity.
  - discriminate.
  - reflexivity.
  - reflexivity.
  - reflexivity.
Defined.

(** ** Concrete runs for the further properties *)

Import Scenario.

Lemma no_project_files_witness :
  outcome noFiles batchYes =
    Throw "can't found any project file in the project root" /\
  taskQueue (final noFiles batchYes) = [].
Proof.
  destruct (no_project_files noFiles batchYes
              (outcome noFiles batchYes)
              (final noFiles batchYes)
              ltac:(vm_compute; reflexivity) eq_refl)
    as (Ho & _ & Hq & _).
  split; assumption.
Defined.

Lemma main_project_file_missing_witness :
  outcome allFine optsJava =
    Throw "can't found java project file in the project root" /\
  taskQueue (final allFine optsJava) = [].
Proof.
  destruct (main_project_file_missing allFine optsJava
              (outcome allFine optsJava)
              (final allFine optsJava)
              ltac:(vm_compute; reflexivity))
    as (Ho & _ & Hq & _).
  - discriminate.
  - reflexivity.
  - split; assumption.
Defined.

Lemma throws_iff_no_main_file_witness :
  exists e, outcome allFine optsJava = Throw e.
Proof.
  apply (proj2 (throws_iff_no_main_file allFine optsJava
              (outcome allFine optsJava)
              (final allFine optsJava)
              ltac:(vm_compute; reflexivity))).
  reflexivity.
Defined.

Lemma explicit_version_skips_prompt_witness :
  (forall cv, ~ In (EvChooseVersion cv) (trace (final allFine batchYes))) /\
  nextVersion (final allFine batchYes) = "2.1.0" /\
  currentVersion (final allFine batchYes) = "1.0.0".
Proof.
  destruct (explicit_version_skips_prompt allFine batchYes
              (outcome allFine batchYes) (final allFine batchYes) pkg "2.1.0"
              ltac:(vm_compute; reflexivity) eq_refl eq_refl eq_refl)
    as (Hno & Hn & Hc & _).
  repeat split; assumption.
Defined.

Lemma version_prompt_cancelled_witness :
  outcome versionCancelled interactive = Exit Canceled /\
  In (EvChooseVersion "") (trace (final versionCancelled interactive)) /\
  taskQueue (final versionCancelled interactive) = [].
Proof.
  destruct (version_prompt_cancelled versionCancelled interactive
              (outcome versionCancelled interactive) (final versionCancelled interactive) pkg
              ltac:(vm_compute; reflexivity) eq_refl eq_refl eq_refl)
    as (Ho & Ht & Hq & _).
  split; [exact Ho|split; [rewrite Ht; simpl; auto|exact Hq]].
Defined.

Lemma batch_yes_never_prompts_witness :
  (forall m, ~ In (EvConfirm m) (trace (final allFine batchYes))) /\
  map name (taskQueue (final allFine batchYes)) =
    ["upgradeVersion"; "commit"; "tag"; "push"].
Proof.
  destruct (batch_yes_never_prompts allFine batchYes
              (outcome allFine batchYes)
              (final allFine batchYes)
              ltac:(vm_compute; reflexivity)
              eq_refl) as (Hno & Hall).
  split; [exact Hno|].
  now destruct (Hall eq_refl) as (_ & _ & _ & Hq).
Defined.

Lemma gate_answer_decides_witness :
  exists st',
    confirmAndSet allFine false stepCommit "should commit?" (execPush false)
      (newApp interactive) = (Ret tt, st') /\
    commit (options st') = Some true /\ tag (options st') = None /\
    map name (taskQueue st') = ["commit"].
Proof.
  destruct (gate_answer_decides allFine stepCommit "should commit?"
              (execPush false) (newApp interactive) true eq_refl eq_refl)
    as (st' & Hrun & Hflag & Hother & Hq & _).
  exists st'; split; [exact Hrun|split; [exact Hflag|split]].
  - apply (Hother stepTag); discriminate.
  - now rewrite Hq.
Defined.

Lemma prompts_precede_tasks_witness :
  exists setup work,
    trace (final allFine interactive) = setup ++ work /\
    Forall setupStep setup /\ Forall workStep work /\
    ~ In (EvStatus running) work.
Proof.
  exact (prompts_precede_tasks allFine interactive
              (outcome allFine interactive)
              (final allFine interactive)
              ltac:(vm_compute; reflexivity)).
Defined.

Lemma aborted_run_does_nothing_witness :
  execNames (trace (final cancels interactive)) = [] /\
  modifiedFiles (final cancels interactive) = [].
Proof.
  destruct (aborted_run_does_nothing cancels interactive
              (outcome cancels interactive)
              (final cancels interactive)
              ltac:(vm_compute; reflexivity))
    as (_ & He & _ & _ & Hm & _).
  - discriminate.
  - split; assumption.
Defined.

Lemma exit_iff_cancelled_witness :
  outcome cancels interactive = Exit Canceled.
Proof.
  apply (proj1 (exit_iff_cancelled cancels interactive
              (outcome cancels interactive)
              (final cancels interactive)
              ltac:(vm_compute; reflexivity))).
  vm_compute; auto 10.
Defined.

Lemma dry_run_reaches_git_witness :
  envDRY (final allFine dryBatch) = true /\
  Forall (dryIs true) (trace (final allFine dryBatch)) /\
  In stepPush (gitCalls (trace (final allFine dryBatch))).
Proof.
  destruct (dry_run_reaches_git allFine dryBatch
              (outcome allFine dryBatch)
              (final allFine dryBatch)
              ltac:(vm_compute; reflexivity))
    as (Henv & Hall).
  split; [exact Henv|split; [exact Hall|vm_compute; auto]].
Defined.

Lemma commit_stages_written_files_witness :
  In (EvGitCommit commitCall) (trace (final allFine batchYes)) /\
  commit_modifiedFiles commitCall =
    map path (rev [pkg; cargo; pom]) /\
  modifiedFiles (final allFine batchYes) = map path (rev [pkg; cargo; pom]).
Proof.
  assert (Hin : In (EvGitCommit commitCall) (trace (final allFine batchYes)))
    by (vm_compute; auto 20).
  destruct (commit_stages_written_files allFine batchYes
              (outcome allFine batchYes) (final allFine batchYes) commitCall
              ltac:(vm_compute; reflexivity) Hin) as (_ & Hc & Hm & _).
  split; [exact Hin|split; assumption].
Defined.

Lemma git_failure_stops_later_steps_witness :
  In (EvGitCommit commitCall) (trace (final commitFails batchYes)) /\
  (forall x, ~ In (EvGitTag x) (trace (final commitFails batchYes))) /\
  (forall x, ~ In (EvGitPush x) (trace (final commitFails batchYes))).
Proof.
  assert (Hin : In (EvGitCommit commitCall)
                  (trace (final commitFails batchYes)))
    by (vm_compute; auto 20).
  split; [exact Hin|].
  exact (proj1 (git_failure_stops_later_steps commitFails batchYes
              (outcome commitFails batchYes) (final commitFails batchYes)
                  ltac:(vm_compute; reflexivity)) commitCall Hin eq_refl).
Defined.

Lemma push_options_after_gates_witness :
  push_followTags (mkPushArgs false true) =
    followTags (resolveAltOptions allFine (options (final allFine batchYes))
                  stepPush) /\
  truthy (push (options (final allFine batchYes))) = true.
Proof.
  apply (push_options_after_gates allFine batchYes
              (outcome allFine batchYes) (final allFine batchYes) (mkPushArgs false true)
           ltac:(vm_compute; reflexivity)).
  vm_compute; auto 20.
Defined.

Lemma git_calls_follow_gate_order_witness :
  gitCalls (trace (final commitFails batchYes)) = [stepCommit] /\
  exists k,
    gitCalls (trace (final commitFails batchYes)) =
    firstn k (enabledSteps (options (final commitFails batchYes))).
Proof.
  split; [vm_compute; reflexivity|].
  exact (git_calls_follow_gate_order commitFails batchYes
              (outcome commitFails batchYes)
              (final commitFails batchYes)
              ltac:(vm_compute; reflexivity)).
Defined.

Lemma clean_run_executes_queue_witness :
  execNames (trace (final allFine batchYes)) =
  ["upgradeVersion"; "commit"; "tag"; "push"].
Proof.
  change ["upgradeVersion"; "commit"; "tag"; "push"]
    with (map name (taskQueue (final allFine batchYes))).
  apply (clean_run_executes_queue allFine batchYes).
  - vm_compute; reflexivity.
  - vm_compute; intros H.
    repeat (destruct H as [H|H]; [discriminate H|]); exact H.
Defined.

Lemma every_file_attempted_once_witness :
  upgrades (trace (final cargoFails batchYes)) =
  [("2.1.0", pkg); ("2.1.0", cargo); ("2.1.0", pom)].
Proof.
  rewrite (every_file_attempted_once cargoFails batchYes
             (final cargoFails batchYes)).
  - reflexivity.
  - vm_compute; reflexivity.
Defined.

Lemma formatMessageString_mentions_version_witness :
  includes "2.1.0" (formatMessageString "release " "2.1.0") = true /\
  includes "2.1.0" (formatMessageString "release v%s!" "2.1.0") = true.
Proof.
  split; apply formatMessageString_mentions_version; reflexivity.
Defined.

Lemma modified_files_after_run_witness :
  modifiedFiles (final cargoFails batchYes) = ["sub/pom.xml"; "package.json"].
Proof.
  rewrite (modified_files_after_run cargoFails batchYes
             (final cargoFails batchYes)).
  - reflexivity.
  - vm_compute; reflexivity.
Defined.
